(** * bnha-sala: the room session relay of [src/server.js]

    A shallow embedding of the socket.io event handlers of [server.js] and
    the properties of its room registry, summary index and roll ledger.

    Conventions of the embedding.
    - A JavaScript string is its sequence of UTF-16 code units ([jsstring]),
      so that [trim], [slice] and the regular expression of [safeRoomId] count
      what the engine counts.  The texts of the [error:msg] events are only
      ever emitted, never inspected, and are kept as the source's literals.
    - Every event comes with a payload the handler can destructure; its
      fields are arbitrary JSON values ([value]), [undefined] when left
      out.  Numbers are IEEE doubles ([float]).  The two conversions of the
      engine between numbers and strings are not code of the repository
      and are taken as the parameter [Runtime].
    - The objects [users], [sheets] and [npcs] are maps from property names
      to values that remember the order in which properties were created;
      property access is own-property access: keys are taken not to name
      members of [Object.prototype] ([proto_member]), and the values that
      are converted not to carry a [toString] of their own
      ([throws_on_conversion]), on which the engine raises an exception.
      The statements on the ids NPCs are stored under, and on deleted
      NPCs, carry these conditions as hypotheses.
    - [rooms] is a [Map]: an association list in insertion order.
    - A handler is a function from the registry, the connection id and the
      payload to the new registry and the list of effects on the transport
      ([socket.emit], [io.to(..).emit], [socket.join]), in program order.
      [Math.random] and [Date.now] are inputs of the event that uses them. *)

From Stdlib Require Import NArith ZArith List String Ascii Bool Lia.
From Stdlib Require Import Uint63 Floats.
Import ListNotations.

Set Implicit Arguments.
Set Warnings "-register-all".

(* ------------------------------------------------------------------ *)
(** ** JavaScript strings *)

Definition jsstring := list N.

(** An ASCII literal of the source as a JavaScript string. *)
Definition lit (s : string) : jsstring :=
  map N_of_ascii (list_ascii_of_string s).

Fixpoint str_eqb (a b : jsstring) : bool :=
  match a, b with
  | [], [] => true
  | x :: a', y :: b' => N.eqb x y && str_eqb a' b'
  | _, _ => false
  end.

(** [WhiteSpace] and [LineTerminator] code units, the ones
    [String.prototype.trim] removes. *)
Definition is_js_space (c : N) : bool :=
  ((9 <=? c) && (c <=? 13) || (c =? 32) || (c =? 160) || (c =? 5760)
   || (8192 <=? c) && (c <=? 8202) || (c =? 8232) || (c =? 8233)
   || (c =? 8239) || (c =? 8287) || (c =? 12288) || (c =? 65279))%N.

Fixpoint trimStart (s : jsstring) : jsstring :=
  match s with
  | c :: s' => if is_js_space c then trimStart s' else s
  | [] => []
  end.

Definition trimEnd (s : jsstring) : jsstring := rev (trimStart (rev s)).

Definition trim (s : jsstring) : jsstring := trimEnd (trimStart s).

(** [s.slice(0, n)] for a non-negative [n]. *)
Definition slice0 (n : nat) (s : jsstring) : jsstring := firstn n s.

(** The characters the class [[a-zA-Z0-9_-]] accepts. *)
Definition id_char (c : N) : bool :=
  ((97 <=? c) && (c <=? 122) || (65 <=? c) && (c <=? 90)
   || (48 <=? c) && (c <=? 57) || (c =? 95) || (c =? 45))%N.

(** [s.replace(/[^a-zA-Z0-9_-]/g, "")]. *)
Definition strip_non_id (s : jsstring) : jsstring := filter id_char s.

(* ------------------------------------------------------------------ *)
(** ** JSON values and the engine's conversions *)

Inductive value :=
| VUndefined
| VNull
| VBool (b : bool)
| VNum (n : float)
| VStr (s : jsstring)
| VArr (items : list value)
| VObj (fields : list (jsstring * value)).

(** [Number::toString] and [StringToNumber] of the engine. *)
Record Runtime := {
  NumberToString : float -> jsstring;
  StringToNumber : jsstring -> float
}.

(** Own-property lookup in a list of fields. *)
Fixpoint field (k : jsstring) (fs : list (jsstring * value)) : option value :=
  match fs with
  | [] => None
  | (k', v) :: fs' => if str_eqb k k' then Some v else field k fs'
  end.

(** [v?.k] for a property name [k] that no string, array or primitive
    wrapper defines (all the names [server.js] reads are of this kind). *)
Definition get (v : value) (k : string) : value :=
  match v with
  | VObj fs => match field (lit k) fs with Some x => x | None => VUndefined end
  | _ => VUndefined
  end.

(** [a ?? b]. *)
Definition nullish (a b : value) : value :=
  match a with
  | VUndefined | VNull => b
  | _ => a
  end.

(** [ToBoolean]. *)
Definition truthy (v : value) : bool :=
  match v with
  | VUndefined | VNull => false
  | VBool b => b
  | VNum n => negb (PrimFloat.eqb n 0%float || PrimFloat.is_nan n)
  | VStr s => match s with [] => false | _ => true end
  | VArr _ | VObj _ => true
  end.

(** [a || b]. *)
Definition or_else (a b : value) : value := if truthy a then a else b.

Section Engine.

Variable rt : Runtime.

(** [String(v)]: [ToString], with [Array.prototype.join] for arrays and the
    default [Object.prototype.toString] for objects. *)
Fixpoint ToString (v : value) : jsstring :=
  match v with
  | VUndefined => lit "undefined"
  | VNull => lit "null"
  | VBool true => lit "true"
  | VBool false => lit "false"
  | VNum n => NumberToString rt n
  | VStr s => s
  | VArr items =>
      (fix join (l : list value) : jsstring :=
         match l with
         | [] => []
         | x :: rest =>
             let sx := match x with
                       | VUndefined | VNull => []
                       | _ => ToString x
                       end in
             match rest with
             | [] => sx
             | _ => sx ++ 44%N :: join rest
             end
         end) items
  | VObj _ => lit "[object Object]"
  end.

(** [Number(v)]: [ToNumber]; arrays and objects go through [ToPrimitive],
    which ends in their string. *)
Definition ToNumber (v : value) : float :=
  match v with
  | VUndefined => nan
  | VNull => 0%float
  | VBool true => 1%float
  | VBool false => 0%float
  | VNum n => n
  | VStr s => StringToNumber rt s
  | VArr _ | VObj _ => StringToNumber rt (ToString v)
  end.

(** [safeRoomId], server.js line 13. *)
Definition safeRoomId (raw : value) : jsstring :=
  strip_non_id (slice0 32 (trim (ToString (or_else raw (VStr []))))).

End Engine.

(* ------------------------------------------------------------------ *)
(** ** Keyed collections: [Map] and plain objects *)

(** Entries in creation order; a key occurs once. *)
Definition entries (A : Type) := list (jsstring * A).

Fixpoint lookup {A} (k : jsstring) (o : entries A) : option A :=
  match o with
  | [] => None
  | (k', v) :: o' => if str_eqb k k' then Some v else lookup k o'
  end.

(** [o[k] = v] / [m.set(k, v)]: an existing key keeps its place, a new one
    goes last. *)
Fixpoint store {A} (k : jsstring) (v : A) (o : entries A) : entries A :=
  match o with
  | [] => [(k, v)]
  | (k', v') :: o' =>
      if str_eqb k k' then (k, v) :: o' else (k', v') :: store k v o'
  end.

(** [delete o[k]] / [m.delete(k)]. *)
Definition remove {A} (k : jsstring) (o : entries A) : entries A :=
  filter (fun e => negb (str_eqb k (fst e))) o.

Definition has {A} (k : jsstring) (o : entries A) : bool :=
  match lookup k o with Some _ => true | None => false end.

(** [o[k]] of an object holding JSON values: [undefined] when absent. *)
Definition prop (o : entries value) (k : jsstring) : value :=
  match lookup k o with Some v => v | None => VUndefined end.

(** A property name that is an array index (a canonical numeric string
    below [2^32 - 1]): such own properties are enumerated first, in
    ascending order, before the others in creation order. *)
Fixpoint digits_value (acc : N) (s : jsstring) : option N :=
  match s with
  | [] => Some acc
  | c :: s' =>
      if ((48 <=? c) && (c <=? 57))%N
      then digits_value (acc * 10 + (c - 48))%N s'
      else None
  end.

Definition array_index (k : jsstring) : option N :=
  match k with
  | [] => None
  | c :: rest =>
      if (c =? 48)%N
      then match rest with [] => Some 0%N | _ => None end
      else match digits_value 0%N k with
           | Some n => if (n <=? 4294967294)%N then Some n else None
           | None => None
           end
  end.

Fixpoint insert_by_index {A} (n : N) (e : jsstring * A)
    (l : list (N * (jsstring * A))) : list (N * (jsstring * A)) :=
  match l with
  | [] => [(n, e)]
  | (m, e') :: l' =>
      if (n <=? m)%N then (n, e) :: l else (m, e') :: insert_by_index n e l'
  end.

Definition index_entries {A} (o : entries A) : list (N * (jsstring * A)) :=
  fold_right
    (fun e acc =>
       match array_index (fst e) with
       | Some n => insert_by_index n e acc
       | None => acc
       end) [] o.

(** [Object.entries(o)]. *)
Definition Object_entries {A} (o : entries A) : entries A :=
  map snd (index_entries o)
  ++ filter (fun e => match array_index (fst e) with
                      | Some _ => false
                      | None => true
                      end) o.

(* ------------------------------------------------------------------ *)
(** ** The data model of a room *)

Inductive Role := master | player.

Record user := { u_name : jsstring; u_role : Role }.

(** A roll entry [{ roomId, from: { socketId, name, role }, payload, at }]. *)
Record rollEntry := {
  r_roomId : jsstring;
  r_socketId : jsstring;
  r_name : jsstring;
  r_role : Role;
  r_payload : value;
  r_at : Z
}.

Record room := {
  masterSocketId : option jsstring;     (* [null] or a connection id *)
  users : entries user;
  sheets : entries value;
  npcs : entries value;
  rolls : list rollEntry
}.

Definition registry := entries room.

(** The room [ensureRoom] creates, server.js line 17. *)
Definition emptyRoom : room :=
  {| masterSocketId := None; users := []; sheets := []; npcs := [];
     rolls := [] |}.

(** [ensureRoom], server.js line 16. *)
Definition ensureRoom (rooms : registry) (roomId : jsstring)
  : registry * room :=
  match lookup roomId rooms with
  | Some r => (rooms, r)
  | None => (store roomId emptyRoom rooms, emptyRoom)
  end.

(** [userName], server.js line 20. *)
Definition userName (r : room) (sid : jsstring) : jsstring :=
  match lookup sid (users r) with
  | Some u => match u_name u with [] => lit "Player" | n => n end
  | None => lit "Player"
  end.

(** [room.masterSocketId] as the value it is: [null] or a string. *)
Definition master_value (r : room) : value :=
  match masterSocketId r with Some m => VStr m | None => VNull end.

(** [socket.id === room.masterSocketId]. *)
Definition is_master (r : room) (sid : jsstring) : bool :=
  match masterSocketId r with Some m => str_eqb sid m | None => false end.

(** [room.masterSocketId && room.users[room.masterSocketId]], line 55. *)
Definition live_master (r : room) : bool :=
  match masterSocketId r with
  | Some m => truthy (VStr m) && has m (users r)
  | None => false
  end.

(* ------------------------------------------------------------------ *)
(** ** The summary projector *)

Record summary := { s_hp : value; s_pd : value; s_name : value }.

Inductive entryType := type_player | type_npc.

Record indexEntry := {
  e_id : jsstring;
  e_type : entryType;
  e_name : value;
  e_hp : value;
  e_pd : value
}.

(** [String(v).slice(0, 40)] of a name with its default, lines 60 and 75. *)
Definition clip_name (rt : Runtime) (v : value) (dflt : string) : jsstring :=
  slice0 40 (ToString rt (or_else v (VStr (lit dflt)))).

Section Projector.

Variable rt : Runtime.

(** [x !== "" ? Number(x) : null], line 27. *)
Definition number_or_null (x : value) : value :=
  match x with
  | VStr [] => VNull
  | _ => VNum (ToNumber rt x)
  end.

(** [extractSummaryFromSheet], server.js lines 22-28. *)
Definition extractSummaryFromSheet (sheet : value) : summary :=
  let hp := nullish (nullish (get sheet "hp_now")
                             (get (get sheet "resources") "hp")) VNull in
  let pd := nullish (nullish (get sheet "pd_now")
                             (get (get sheet "resources") "pd")) VNull in
  let name := nullish (nullish (get sheet "name")
                               (get (get sheet "character") "name")) VNull in
  {| s_hp := number_or_null hp; s_pd := number_or_null pd;
     s_name := or_else name VNull |}.

(** The body of the first loop of [buildIndex], lines 33-36. *)
Definition push_player (r : room) (acc : list indexEntry)
    (e : jsstring * user) : list indexEntry :=
  let (sid, u) := e in
  match u_role u with
  | master => acc
  | player =>
      let sh := prop (sheets r) sid in
      let s := if truthy sh then extractSummaryFromSheet sh
               else {| s_hp := VNull; s_pd := VNull;
                       s_name := VStr (u_name u) |} in
      acc ++ [ {| e_id := sid; e_type := type_player;
                   e_name := or_else (s_name s) (VStr (u_name u));
                   e_hp := s_hp s; e_pd := s_pd s |} ]
  end.

(** The body of the second loop of [buildIndex], lines 39-40. *)
Definition push_npc (acc : list indexEntry) (e : jsstring * value)
  : list indexEntry :=
  let (nid, sh) := e in
  let s := extractSummaryFromSheet sh in
  acc ++ [ {| e_id := nid; e_type := type_npc;
               e_name := or_else (s_name s) (VStr (lit "NPC"));
               e_hp := s_hp s; e_pd := s_pd s |} ].

(** [buildIndex], server.js lines 30-43. *)
Definition buildIndex (r : room) : list indexEntry :=
  let players := fold_left (push_player r) (Object_entries (users r)) [] in
  fold_left push_npc (Object_entries (npcs r)) players.

End Projector.

(* ------------------------------------------------------------------ *)
(** ** Events, in and out *)

(** What a connection sends: the event and the fields its handler
    destructures.  [NpcCreate] also carries the eight characters
    [Math.random().toString(36).slice(2,10)] drew, and [RollSend] the clock
    [Date.now()] read. *)
Inductive event :=
| RoomCreate (roomId name : value)
| RoomJoin (roomId name : value)
| RoomRequestIndex (roomId : value)
| SheetSave (roomId sheet : value)
| MasterRequestSheet (roomId ownerSocketId : value)
| MasterUpdateSheet (roomId ownerSocketId sheet : value)
| NpcCreate (roomId sheet : value) (suffix : jsstring)
| NpcRequest (roomId npcId : value)
| NpcUpdate (roomId npcId sheet : value)
| NpcDelete (roomId npcId : value)
| RollSend (roomId payload : value) (now : Z)
| Disconnect.

(** What the server emits, by event name. *)
Inductive message :=
| ErrorMsg (text : string)                                  (* error:msg *)
| RoomJoined (roomId : jsstring) (role : Role) (socketId : jsstring)
| RollHistory (items : list rollEntry)                      (* roll:history *)
| SheetsIndex (items : list indexEntry)                     (* room:sheetsIndex *)
| SheetLoad (ownerSocketId sheet id : value)                (* sheet:load *)
| SheetSummary (ownerSocketId ownerName : jsstring) (sum : summary)
| SheetPush (ownerSocketId : jsstring) (sheet : value)      (* sheet:push *)
| NpcCreated (npcId : jsstring) (sheet : value)             (* npc:created *)
| NpcLoad (npcId sheet : value)                             (* npc:load *)
| RollBroadcast (entry : rollEntry).                        (* roll:broadcast *)

(** The calls on the transport. *)
Inductive effect :=
| SocketEmit (sid : jsstring) (m : message)   (* socket.emit(..) *)
| IoToEmit (target : value) (m : message)     (* io.to(target).emit(..) *)
| SocketJoin (sid : jsstring) (group : jsstring).  (* socket.join(group) *)

Definition is_empty (s : jsstring) : bool :=
  match s with [] => true | _ => false end.

(** The roll ledger's append, server.js lines 200-202: [push], then one
    [shift] when the length is above 50. *)
Definition roll_append (l : list rollEntry) (entry : rollEntry)
  : list rollEntry :=
  let l' := l ++ [entry] in
  if 50 <? List.length l' then tl l' else l'.

Section Handlers.

Variable rt : Runtime.

(** [emitIndex], server.js line 45. *)
Definition emitIndex (r : room) : effect :=
  IoToEmit (master_value r) (SheetsIndex (buildIndex rt r)).

Definition with_master (r : room) (m : option jsstring) : room :=
  {| masterSocketId := m; users := users r; sheets := sheets r;
     npcs := npcs r; rolls := rolls r |}.

Definition with_users (r : room) (u : entries user) : room :=
  {| masterSocketId := masterSocketId r; users := u; sheets := sheets r;
     npcs := npcs r; rolls := rolls r |}.

Definition with_sheets (r : room) (s : entries value) : room :=
  {| masterSocketId := masterSocketId r; users := users r; sheets := s;
     npcs := npcs r; rolls := rolls r |}.

Definition with_npcs (r : room) (n : entries value) : room :=
  {| masterSocketId := masterSocketId r; users := users r;
     sheets := sheets r; npcs := n; rolls := rolls r |}.

Definition with_rolls (r : room) (l : list rollEntry) : room :=
  {| masterSocketId := masterSocketId r; users := users r;
     sheets := sheets r; npcs := npcs r; rolls := l |}.

(** [room:create], server.js lines 50-66. *)
Definition on_room_create (rooms : registry) (sid : jsstring)
    (roomId name : value) : registry * list effect :=
  let id := safeRoomId rt roomId in
  if is_empty id then (rooms, [SocketEmit sid (ErrorMsg "Room ID inválido.")])
  else
    let (rooms1, r) := ensureRoom rooms id in
    if live_master r then
      (rooms1,
       [SocketEmit sid
          (ErrorMsg "Essa sala já tem mestre. Entre como Player.")])
    else
      let r1 := with_master r (Some sid) in
      let r2 := with_users r1
                  (store sid {| u_name := clip_name rt name "Mestre";
                                u_role := master |} (users r1)) in
      (store id r2 rooms1,
       [SocketJoin sid id;
        SocketEmit sid (RoomJoined id master sid);
        SocketEmit sid (RollHistory (rolls r2));
        emitIndex r2]).

(** [room:join], server.js lines 68-87. *)
Definition on_room_join (rooms : registry) (sid : jsstring)
    (roomId name : value) : registry * list effect :=
  let id := safeRoomId rt roomId in
  if is_empty id then (rooms, [SocketEmit sid (ErrorMsg "Room ID inválido.")])
  else
    match lookup id rooms with
    | None =>
        (rooms,
         [SocketEmit sid (ErrorMsg "Sala não existe (ou está sem mestre).")])
    | Some r =>
        if negb (truthy (master_value r)) then
          (rooms,
           [SocketEmit sid
              (ErrorMsg "Sala não existe (ou está sem mestre).")])
        else
          let r1 := with_users r
                      (store sid {| u_name := clip_name rt name "Player";
                                    u_role := player |} (users r)) in
          (store id r1 rooms,
           [SocketJoin sid id;
            SocketEmit sid (RoomJoined id player sid);
            SocketEmit sid (RollHistory (rolls r1))]
           ++ (if truthy (prop (sheets r1) sid)
               then [SocketEmit sid
                       (SheetLoad (VStr sid) (prop (sheets r1) sid)
                          (VStr sid))]
               else [])
           ++ [emitIndex r1])
    end.

(** [room:requestIndex], server.js lines 89-95. *)
Definition on_request_index (rooms : registry) (sid : jsstring)
    (roomId : value) : registry * list effect :=
  let id := safeRoomId rt roomId in
  match lookup id rooms with
  | None => (rooms, [])
  | Some r =>
      if negb (is_master r sid) then (rooms, [])
      else (rooms, [emitIndex r])
  end.

(** [sheet:save], server.js lines 98-113. *)
Definition on_sheet_save (rooms : registry) (sid : jsstring)
    (roomId sheet : value) : registry * list effect :=
  let id := safeRoomId rt roomId in
  match lookup id rooms with
  | None => (rooms, [])
  | Some r =>
      if negb (has sid (users r)) then (rooms, [])
      else
        let r1 := with_sheets r (store sid sheet (sheets r)) in
        let sum := extractSummaryFromSheet rt sheet in
        (store id r1 rooms,
         if truthy (master_value r1) then
           [IoToEmit (master_value r1)
              (SheetSummary sid (userName r1 sid) sum);
            IoToEmit (master_value r1) (SheetPush sid sheet);
            emitIndex r1]
         else [])
  end.

(** [master:requestSheet], server.js lines 116-126. *)
Definition on_master_request_sheet (rooms : registry) (sid : jsstring)
    (roomId ownerSocketId : value) : registry * list effect :=
  let id := safeRoomId rt roomId in
  match lookup id rooms with
  | None => (rooms, [])
  | Some r =>
      if negb (is_master r sid) then
        (rooms,
         [SocketEmit sid
            (ErrorMsg "Apenas o mestre pode ver fichas de outros.")])
      else
        let sheet := prop (sheets r) (ToString rt ownerSocketId) in
        if negb (truthy sheet) then
          (rooms,
           [SocketEmit sid
              (ErrorMsg "Esse player ainda não enviou a ficha.")])
        else
          (rooms,
           [SocketEmit sid (SheetLoad ownerSocketId sheet ownerSocketId)])
  end.

(** [master:updateSheet], server.js lines 129-141. *)
Definition on_master_update_sheet (rooms : registry) (sid : jsstring)
    (roomId ownerSocketId sheet : value) : registry * list effect :=
  let id := safeRoomId rt roomId in
  match lookup id rooms with
  | None => (rooms, [])
  | Some r =>
      if negb (is_master r sid) then
        (rooms,
         [SocketEmit sid
            (ErrorMsg "Apenas o mestre pode editar fichas de outros.")])
      else
        let r1 := with_sheets r
                    (store (ToString rt ownerSocketId) sheet (sheets r)) in
        (store id r1 rooms,
         [IoToEmit ownerSocketId
            (SheetLoad ownerSocketId sheet ownerSocketId);
          SocketEmit sid (SheetLoad ownerSocketId sheet ownerSocketId);
          emitIndex r1])
  end.

(** [npc:create], server.js lines 144-154. *)
Definition on_npc_create (rooms : registry) (sid : jsstring)
    (roomId sheet : value) (suffix : jsstring) : registry * list effect :=
  let id := safeRoomId rt roomId in
  match lookup id rooms with
  | None => (rooms, [])
  | Some r =>
      if negb (is_master r sid) then
        (rooms, [SocketEmit sid (ErrorMsg "Só o mestre pode criar NPC.")])
      else
        let npcId := lit "npc_" ++ suffix in
        let r1 := with_npcs r
                    (store npcId (or_else sheet (VObj [])) (npcs r)) in
        (store id r1 rooms,
         [SocketEmit sid (NpcCreated npcId (prop (npcs r1) npcId));
          emitIndex r1])
  end.

(** [npc:request], server.js lines 156-164. *)
Definition on_npc_request (rooms : registry) (sid : jsstring)
    (roomId npcId : value) : registry * list effect :=
  let id := safeRoomId rt roomId in
  match lookup id rooms with
  | None => (rooms, [])
  | Some r =>
      if negb (is_master r sid) then (rooms, [])
      else
        let sheet := prop (npcs r) (ToString rt npcId) in
        if negb (truthy sheet) then
          (rooms, [SocketEmit sid (ErrorMsg "NPC não encontrado.")])
        else (rooms, [SocketEmit sid (NpcLoad npcId sheet)])
  end.

(** [npc:update], server.js lines 166-175. *)
Definition on_npc_update (rooms : registry) (sid : jsstring)
    (roomId npcId sheet : value) : registry * list effect :=
  let id := safeRoomId rt roomId in
  match lookup id rooms with
  | None => (rooms, [])
  | Some r =>
      if negb (is_master r sid) then
        (rooms, [SocketEmit sid (ErrorMsg "Só o mestre pode editar NPC.")])
      else if negb (truthy (prop (npcs r) (ToString rt npcId))) then
        (rooms, [SocketEmit sid (ErrorMsg "NPC não encontrado.")])
      else
        let r1 := with_npcs r (store (ToString rt npcId) sheet (npcs r)) in
        (store id r1 rooms,
         [SocketEmit sid (NpcLoad npcId sheet); emitIndex r1])
  end.

(** [npc:delete], server.js lines 177-184. *)
Definition on_npc_delete (rooms : registry) (sid : jsstring)
    (roomId npcId : value) : registry * list effect :=
  let id := safeRoomId rt roomId in
  match lookup id rooms with
  | None => (rooms, [])
  | Some r =>
      if negb (is_master r sid) then
        (rooms, [SocketEmit sid (ErrorMsg "Só o mestre pode excluir NPC.")])
      else
        let r1 := with_npcs r (remove (ToString rt npcId) (npcs r)) in
        (store id r1 rooms, [emitIndex r1])
  end.

(** [roll:send], server.js lines 187-205. *)
Definition on_roll_send (rooms : registry) (sid : jsstring)
    (roomId payload : value) (now : Z) : registry * list effect :=
  let id := safeRoomId rt roomId in
  match lookup id rooms with
  | None => (rooms, [])
  | Some r =>
      match lookup sid (users r) with
      | None => (rooms, [])
      | Some u =>
          let entry := {| r_roomId := id; r_socketId := sid;
                          r_name := u_name u; r_role := u_role u;
                          r_payload := payload; r_at := now |} in
          let r1 := with_rolls r (roll_append (rolls r) entry) in
          (store id r1 rooms, [IoToEmit (VStr id) (RollBroadcast entry)])
      end
  end.

(** The body of the [disconnect] loop for the room that holds the
    connection, server.js lines 210-220: the room after it and what it
    emits. *)
Definition leave_room (roomId : jsstring) (r : room) (sid : jsstring)
  : room * list effect :=
  let wasMaster := is_master r sid in
  let r1 := with_users r (remove sid (users r)) in
  let r2 := if wasMaster then with_master r1 None else r1 in
  (r2,
   (if wasMaster
    then [IoToEmit (VStr roomId)
            (ErrorMsg "O mestre desconectou. Sala ficou sem mestre.")]
    else [])
   ++ (if truthy (master_value r2) then [emitIndex r2] else [])).

(** [disconnect], server.js lines 207-226: the scan of [rooms.entries()]
    up to the [break]; the room is changed where it stands, or taken out
    by [rooms.delete(roomId)] when no user is left. *)
Fixpoint on_disconnect (rooms : registry) (sid : jsstring)
  : registry * list effect :=
  match rooms with
  | [] => ([], [])
  | (roomId, r) :: rest =>
      if has sid (users r) then
        let (r', out) := leave_room roomId r sid in
        (if (List.length (users r') =? 0)%nat then rest else (roomId, r') :: rest,
         out)
      else
        let (rest', out) := on_disconnect rest sid in
        ((roomId, r) :: rest', out)
  end.

(** One event of connection [sid] handled to completion. *)
Definition step (rooms : registry) (sid : jsstring) (ev : event)
  : registry * list effect :=
  match ev with
  | RoomCreate roomId name => on_room_create rooms sid roomId name
  | RoomJoin roomId name => on_room_join rooms sid roomId name
  | RoomRequestIndex roomId => on_request_index rooms sid roomId
  | SheetSave roomId sheet => on_sheet_save rooms sid roomId sheet
  | MasterRequestSheet roomId owner =>
      on_master_request_sheet rooms sid roomId owner
  | MasterUpdateSheet roomId owner sheet =>
      on_master_update_sheet rooms sid roomId owner sheet
  | NpcCreate roomId sheet suffix =>
      on_npc_create rooms sid roomId sheet suffix
  | NpcRequest roomId npcId => on_npc_request rooms sid roomId npcId
  | NpcUpdate roomId npcId sheet => on_npc_update rooms sid roomId npcId sheet
  | NpcDelete roomId npcId => on_npc_delete rooms sid roomId npcId
  | RollSend roomId payload now => on_roll_send rooms sid roomId payload now
  | Disconnect => on_disconnect rooms sid
  end.

(** The registries the server can be in: [rooms] starts empty (line 11)
    and changes only by handled events. *)
Inductive reachable : registry -> Prop :=
| reach_init : reachable []
| reach_step : forall rooms sid ev,
    reachable rooms -> reachable (fst (step rooms sid ev)).

(** The registry after a run of events, and everything emitted. *)
Fixpoint run (rooms : registry) (evs : list (jsstring * event))
  : registry * list effect :=
  match evs with
  | [] => (rooms, [])
  | (sid, ev) :: evs' =>
      let (rooms1, out1) := step rooms sid ev in
      let (rooms2, out2) := run rooms1 evs' in
      (rooms2, out1 ++ out2)
  end.

End Handlers.

(* ------------------------------------------------------------------ *)
(** ** A stand-in engine for closed examples

    Every theorem below holds for every [Runtime].  Closed examples need
    one to run on: this one reads the empty string and writes and reads
    non-negative decimal integers below [2^53] as the engine does, and
    answers [NaN] elsewhere. *)

Fixpoint uint_units (d : Decimal.uint) : jsstring :=
  match d with
  | Decimal.Nil => []
  | Decimal.D0 d' => 48%N :: uint_units d'
  | Decimal.D1 d' => 49%N :: uint_units d'
  | Decimal.D2 d' => 50%N :: uint_units d'
  | Decimal.D3 d' => 51%N :: uint_units d'
  | Decimal.D4 d' => 52%N :: uint_units d'
  | Decimal.D5 d' => 53%N :: uint_units d'
  | Decimal.D6 d' => 54%N :: uint_units d'
  | Decimal.D7 d' => 55%N :: uint_units d'
  | Decimal.D8 d' => 56%N :: uint_units d'
  | Decimal.D9 d' => 57%N :: uint_units d'
  end.

Definition small_integer_of_float (f : float) : option N :=
  match Prim2SF f with
  | S754_zero _ => Some 0%N
  | S754_finite false m e =>
      if (0 <=? e)%Z then None
      else
        let d := (2 ^ Z.to_N (- e))%N in
        if (N.pos m mod d =? 0)%N then Some (N.pos m / d)%N else None
  | _ => None
  end.

Definition demo_runtime : Runtime :=
  {| NumberToString :=
       fun f => match small_integer_of_float f with
                | Some n => uint_units (N.to_uint n)
                | None => lit "NaN"
                end;
     StringToNumber :=
       fun s => match s with
                | [] => 0%float
                | _ => match digits_value 0%N s with
                       | Some n =>
                           if (n <? 2 ^ 53)%N
                           then PrimFloat.of_uint63 (Uint63.of_Z (Z.of_N n))
                           else nan
                       | None => nan
                       end
                end |}.

(* ------------------------------------------------------------------ *)
(** ** Vocabulary of the statements *)

(** *** White space around a string *)

Definition all_spaces (s : jsstring) : Prop :=
  Forall (fun c => is_js_space c = true) s.

Definition starts_clean (s : jsstring) : Prop :=
  match s with
  | c :: _ => is_js_space c = false
  | [] => True
  end.

Definition ends_clean (s : jsstring) : Prop := starts_clean (rev s).

(** *** Index entries *)

Definition is_player (e : jsstring * user) : bool :=
  match u_role (snd e) with player => true | master => false end.

Section IndexEntries.

Variable rt : Runtime.

(** The index entry of a player: from the summary of the sheet stored
    under the player's connection id when that sheet is truthy, with the
    user's stored name where the summary has none; from the user alone
    otherwise. *)
Definition index_of_player (r : room) (e : jsstring * user) : indexEntry :=
  let (sid, u) := e in
  match lookup sid (sheets r) with
  | Some sh =>
      if truthy sh then
        let s := extractSummaryFromSheet rt sh in
        {| e_id := sid; e_type := type_player;
           e_name := if truthy (s_name s) then s_name s else VStr (u_name u);
           e_hp := s_hp s; e_pd := s_pd s |}
      else
        {| e_id := sid; e_type := type_player; e_name := VStr (u_name u);
           e_hp := VNull; e_pd := VNull |}
  | None =>
      {| e_id := sid; e_type := type_player; e_name := VStr (u_name u);
         e_hp := VNull; e_pd := VNull |}
  end.

Definition index_of_npc (e : jsstring * value) : indexEntry :=
  let (nid, sh) := e in
  let s := extractSummaryFromSheet rt sh in
  {| e_id := nid; e_type := type_npc;
     e_name := if truthy (s_name s) then s_name s else VStr (lit "NPC");
     e_hp := s_hp s; e_pd := s_pd s |}.



End IndexEntries.

(** *** Rooms across an event *)

(** The ways a handler rewrites a room [r] of id [id]. *)
Inductive room_update (rt : Runtime) (rooms : registry) (sid : jsstring)
    (ev : event) (id : jsstring) (r : room) : room -> Prop :=
| upd_create : forall u,
    u_role u = master ->
    room_update rt rooms sid ev id r
      (with_users (with_master r (Some sid)) (store sid u (users r)))
| upd_join : forall raw name u,
    ev = RoomJoin raw name ->
    lookup (safeRoomId rt raw) rooms = Some r ->
    u_role u = player ->
    room_update rt rooms sid ev id r (with_users r (store sid u (users r)))
| upd_sheets : forall s, room_update rt rooms sid ev id r (with_sheets r s)
| upd_npcs : forall n, room_update rt rooms sid ev id r (with_npcs r n)
| upd_rolls : forall e,
    room_update rt rooms sid ev id r
      (with_rolls r (roll_append (rolls r) e))
| upd_leave : room_update rt rooms sid ev id r (fst (leave_room rt id r sid)).

(** The registries reachable by events that all satisfy [ok]. *)
Inductive reachable_if (rt : Runtime)
    (ok : registry -> jsstring -> event -> Prop) : registry -> Prop :=
| reach_if_init : reachable_if rt ok []
| reach_if_step : forall rooms sid ev,
    reachable_if rt ok rooms -> ok rooms sid ev ->
    reachable_if rt ok (fst (step rt rooms sid ev)).

(** The master of a room sends [room:join] for that very room. *)
Definition master_rejoins (rt : Runtime) (rooms : registry) (sid : jsstring)
    (ev : event) : Prop :=
  exists raw name r,
    ev = RoomJoin raw name
    /\ lookup (safeRoomId rt raw) rooms = Some r
    /\ masterSocketId r = Some sid.

(** *** The master among the users *)

Definition master_is_user (r : room) : Prop :=
  forall m, masterSocketId r = Some m ->
            exists u, lookup m (users r) = Some u.

Definition master_has_role (r : room) : Prop :=
  forall m, masterSocketId r = Some m ->
            exists u, lookup m (users r) = Some u /\ u_role u = master.

(** *** Sample data *)

(** The [n]-th roll of a test run. *)
Definition sample_roll (n : nat) : rollEntry :=
  {| r_roomId := lit "sala"; r_socketId := lit "p1"; r_name := lit "Ana";
     r_role := player; r_payload := VNull; r_at := Z.of_nat n |}.

(** A short session: a master and a player in one room, a sheet, an NPC
    and a roll, and a second room of the same master. *)
Definition sample_events : list (jsstring * event) :=
  [(lit "m1", RoomCreate (VStr (lit "sala")) (VStr (lit "Gm")));
   (lit "p1", RoomJoin (VStr (lit "sala")) (VStr (lit "Ana")));
   (lit "p1", SheetSave (VStr (lit "sala"))
                (VObj [(lit "hp_now", VStr (lit "12"))]));
   (lit "m1", NpcCreate (VStr (lit "sala")) VNull (lit "k3x9q2ab"));
   (lit "p1", RollSend (VStr (lit "sala")) (VStr (lit "1d20")) 1700%Z);
   (lit "m1", RoomCreate (VStr (lit "outra")) VUndefined)].

Definition sample_registry : registry :=
  fst (run demo_runtime [] sample_events).

(** *** The registry and its rooms, in detail *)

(** The keys of a collection, in order. *)
Definition keys {A} (o : entries A) : list jsstring := map fst o.

(** What [safeRoomId] can return and the handlers accept as a room id. *)
Definition valid_room_id (id : jsstring) : Prop :=
  id <> [] /\ List.length id <= 32
  /\ Forall (fun c => id_char c = true) id.

(** [s.startsWith(p)]. *)
Definition has_prefix (p s : jsstring) : bool :=
  str_eqb (firstn (List.length p) s) p.

(** The room id an event names, sanitized; [disconnect] names none. *)
Definition event_room (rt : Runtime) (ev : event) : option jsstring :=
  match ev with
  | RoomCreate roomId _ | RoomJoin roomId _ | RoomRequestIndex roomId
  | SheetSave roomId _ | MasterRequestSheet roomId _
  | MasterUpdateSheet roomId _ _ | NpcCreate roomId _ _
  | NpcRequest roomId _ | NpcUpdate roomId _ _ | NpcDelete roomId _
  | RollSend roomId _ _ => Some (safeRoomId rt roomId)
  | Disconnect => None
  end.

(** The events whose handlers only read the registry. *)
Definition read_only (ev : event) : bool :=
  match ev with
  | RoomRequestIndex _ | MasterRequestSheet _ _ | NpcRequest _ _ => true
  | _ => false
  end.

(** Each way a handler, run for connection [sid], rewrites the room [r]
    stored under [id], with the test that let it through. *)
Inductive room_change (rt : Runtime) (sid id : jsstring) (r : room)
  : room -> Prop :=
| chg_create : forall name,
    live_master r = false ->
    room_change rt sid id r
      (with_users (with_master r (Some sid))
         (store sid {| u_name := clip_name rt name "Mestre";
                       u_role := master |} (users r)))
| chg_join : forall name,
    truthy (master_value r) = true ->
    room_change rt sid id r
      (with_users r
         (store sid {| u_name := clip_name rt name "Player";
                       u_role := player |} (users r)))
| chg_sheet_save : forall sheet,
    has sid (users r) = true ->
    room_change rt sid id r (with_sheets r (store sid sheet (sheets r)))
| chg_sheet_update : forall owner sheet,
    is_master r sid = true ->
    room_change rt sid id r
      (with_sheets r (store (ToString rt owner) sheet (sheets r)))
| chg_npc_create : forall sheet suffix,
    is_master r sid = true ->
    room_change rt sid id r
      (with_npcs r
         (store (lit "npc_" ++ suffix) (or_else sheet (VObj [])) (npcs r)))
| chg_npc_update : forall npcId sheet,
    is_master r sid = true ->
    truthy (prop (npcs r) (ToString rt npcId)) = true ->
    room_change rt sid id r
      (with_npcs r (store (ToString rt npcId) sheet (npcs r)))
| chg_npc_delete : forall npcId,
    is_master r sid = true ->
    room_change rt sid id r
      (with_npcs r (remove (ToString rt npcId) (npcs r)))
| chg_roll : forall u payload now,
    lookup sid (users r) = Some u ->
    room_change rt sid id r
      (with_rolls r
         (roll_append (rolls r)
            {| r_roomId := id; r_socketId := sid; r_name := u_name u;
               r_role := u_role u; r_payload := payload; r_at := now |}))
| chg_leave :
    has sid (users r) = true ->
    users (fst (leave_room rt id r sid)) <> [] ->
    room_change rt sid id r (fst (leave_room rt id r sid)).

(** The index of a room goes, through [io.to], to that room's master, the
    room being one of the registry [rooms']. *)
Definition index_goes_to_master (rt : Runtime) (rooms' : registry)
    (e : effect) : Prop :=
  match e with
  | SocketEmit _ (SheetsIndex _) => False
  | IoToEmit t (SheetsIndex items) =>
      exists id r m,
        In (id, r) rooms' /\ masterSocketId r = Some m
        /\ t = VStr m /\ items = buildIndex rt r
  | _ => True
  end.

(** An error goes to the caller's socket; the one error sent through
    [io.to] is the notice to the group of a room [sid] was master of. *)
Definition error_goes_to_caller (rooms : registry) (sid : jsstring)
    (ev : event) (e : effect) : Prop :=
  match e with
  | SocketEmit s (ErrorMsg _) => s = sid
  | IoToEmit t (ErrorMsg text) =>
      ev = Disconnect
      /\ text = "O mestre desconectou. Sala ficou sem mestre."%string
      /\ exists id r,
          In (id, r) rooms /\ masterSocketId r = Some sid /\ t = VStr id
  | _ => True
  end.

(** Every user with the role of master is the room's master. *)
Definition one_master (r : room) : Prop :=
  forall k u, lookup k (users r) = Some u -> u_role u = master ->
              masterSocketId r = Some k.

(** *** Keys and documents the embedding is exact on *)

(** The names [Object.prototype] gives every plain object.  [o[k]] for
    such a [k] finds the inherited member when [o] has no property of its
    own under [k]; the own-property lookups of the embedding are exact for
    every other key. *)
Definition object_prototype_names : list jsstring :=
  map lit ["constructor"; "__proto__"; "hasOwnProperty"; "isPrototypeOf";
           "propertyIsEnumerable"; "toLocaleString"; "toString"; "valueOf";
           "__defineGetter__"; "__defineSetter__"; "__lookupGetter__";
           "__lookupSetter__"]%string.

Definition proto_member (k : jsstring) : bool :=
  existsb (str_eqb k) object_prototype_names.

(** The values [String(v)] and [Number(v)] raise [TypeError] on: an object
    with a [toString] of its own (in a JSON document it is never a
    function), or an array that holds one. *)
Fixpoint throws_on_conversion (v : value) : bool :=
  match v with
  | VObj fs =>
      match field (lit "toString") fs with Some _ => true | None => false end
  | VArr items =>
      (fix any (l : list value) : bool :=
         match l with
         | [] => false
         | x :: l' => throws_on_conversion x || any l'
         end) items
  | _ => false
  end.

(** A value that, used as a property key, converts without an exception
    to a string that names no member of [Object.prototype]. *)
Definition plain_key (rt : Runtime) (v : value) : Prop :=
  throws_on_conversion v = false /\ proto_member (ToString rt v) = false.

(** The NPC id of an [npc:update] is a plain key. *)
Definition plain_npc_update (rt : Runtime) (rooms : registry)
    (sid : jsstring) (ev : event) : Prop :=
  match ev with
  | NpcUpdate _ npcId _ => plain_key rt npcId
  | _ => True
  end.

(** *** Runs of [roll:send] *)

(** The entry [roll:send] makes in room [id] for user [u] of connection
    [sid], from a payload and the clock. *)
Definition roll_entry_of (id sid : jsstring) (u : user) (pt : value * Z)
  : rollEntry :=
  {| r_roomId := id; r_socketId := sid; r_name := u_name u;
     r_role := u_role u; r_payload := fst pt; r_at := snd pt |}.

(** One [roll:send] of [sid] to the room [raw] names per payload and
    clock reading. *)
Definition roll_sends (sid : jsstring) (raw : value)
    (sends : list (value * Z)) : list (jsstring * event) :=
  map (fun pt => (sid, RollSend raw (fst pt) (snd pt))) sends.

(** The code units of the class [[A-Za-z0-9_-]], and the white space and
    line terminators of ECMAScript, spelled out. *)
Definition allowed_code_unit (c : N) : Prop :=
  (97 <= c <= 122 \/ 65 <= c <= 90 \/ 48 <= c <= 57 \/ c = 95 \/ c = 45)%N.

Definition white_space_code_unit (c : N) : Prop :=
  (In c [9; 10; 11; 12; 13; 32; 160; 5760; 8232; 8233; 8239; 8287;
         12288; 65279]
   \/ 8192 <= c <= 8202)%N.

(* ------------------------------------------------------------------ *)
(** ** Facts about strings and keyed collections *)

Lemma str_eqb_eq : forall a b, str_eqb a b = true <-> a = b.
Proof.
  induction a as [|x a IH]; destruct b as [|y b]; simpl;
    try (split; [discriminate | discriminate]); [tauto|].
  rewrite andb_true_iff, N.eqb_eq, IH.
  split; [intros [-> ->]; reflexivity | intros H; inversion H; auto].
Qed.

Lemma str_eqb_refl : forall a, str_eqb a a = true.
Proof. intros a. apply str_eqb_eq. reflexivity. Qed.

Lemma str_eqb_neq : forall a b, a <> b -> str_eqb a b = false.
Proof.
  intros a b H. destruct (str_eqb a b) eqn:E; [|reflexivity].
  apply str_eqb_eq in E. contradiction.
Qed.

Lemma str_eqb_false : forall a b, str_eqb a b = false -> a <> b.
Proof.
  intros a b H ->. rewrite str_eqb_refl in H. discriminate.
Qed.

Lemma is_empty_true : forall s, is_empty s = true <-> s = [].
Proof. destruct s; simpl; split; congruence. Qed.

Section Collections.

Variable A : Type.
Implicit Types (o : entries A) (k : jsstring) (v : A).

Lemma lookup_store_same : forall o k v, lookup k (store k v o) = Some v.
Proof.
  induction o as [|[k' v'] o IH]; intros k v; simpl.
  - rewrite str_eqb_refl. reflexivity.
  - destruct (str_eqb k k') eqn:E; simpl.
    + rewrite str_eqb_refl. reflexivity.
    + rewrite E. apply IH.
Qed.

Lemma lookup_store_other :
  forall o k k' v, k' <> k -> lookup k' (store k v o) = lookup k' o.
Proof.
  induction o as [|[k0 v0] o IH]; intros k k' v Hne; simpl.
  - rewrite (str_eqb_neq Hne). reflexivity.
  - destruct (str_eqb k k0) eqn:E; simpl.
    + apply str_eqb_eq in E. subst k0.
      rewrite (str_eqb_neq Hne). reflexivity.
    + destruct (str_eqb k' k0); [reflexivity | apply IH; assumption].
Qed.

Lemma store_store : forall o k v w, store k v (store k w o) = store k v o.
Proof.
  induction o as [|[k0 v0] o IH]; intros k v w; simpl.
  - rewrite str_eqb_refl. reflexivity.
  - destruct (str_eqb k k0) eqn:E; simpl.
    + rewrite str_eqb_refl. reflexivity.
    + rewrite E, IH. reflexivity.
Qed.

Lemma In_store :
  forall o k v e, In e (store k v o) -> e = (k, v) \/ In e o.
Proof.
  induction o as [|[k0 v0] o IH]; intros k v e; simpl.
  - intros [H|[]]; auto.
  - destruct (str_eqb k k0); simpl.
    + intros [H|H]; auto.
    + intros [H|H]; auto. destruct (IH _ _ _ H); auto.
Qed.

Lemma lookup_In : forall o k v, lookup k o = Some v -> In (k, v) o.
Proof.
  induction o as [|[k0 v0] o IH]; intros k v; simpl; [discriminate|].
  destruct (str_eqb k k0) eqn:E.
  - apply str_eqb_eq in E. intros H. inversion H. subst. auto.
  - auto.
Qed.

Lemma lookup_remove_other :
  forall o k k', k' <> k -> lookup k' (remove k o) = lookup k' o.
Proof.
  induction o as [|[k0 v0] o IH]; intros k k' Hne; simpl; [reflexivity|].
  destruct (str_eqb k k0) eqn:E; simpl.
  - apply str_eqb_eq in E. subst k0.
    rewrite (str_eqb_neq Hne). apply IH. assumption.
  - destruct (str_eqb k' k0); [reflexivity | apply IH; assumption].
Qed.

Lemma lookup_remove_same : forall o k, lookup k (remove k o) = None.
Proof.
  induction o as [|[k0 v0] o IH]; intros k; simpl; [reflexivity|].
  destruct (str_eqb k k0) eqn:E; simpl; [apply IH|].
  rewrite E. apply IH.
Qed.

Lemma has_true : forall o k, has k o = true <-> exists v, lookup k o = Some v.
Proof.
  intros o k. unfold has. destruct (lookup k o).
  - split; eauto.
  - split; [discriminate | intros [v H]; discriminate].
Qed.

End Collections.

Lemma is_master_true :
  forall r sid, is_master r sid = true <-> masterSocketId r = Some sid.
Proof.
  intros r sid. unfold is_master. destruct (masterSocketId r) as [m|].
  - rewrite str_eqb_eq. split; congruence.
  - split; discriminate.
Qed.

Lemma is_master_false :
  forall r sid, masterSocketId r <> Some sid -> is_master r sid = false.
Proof.
  intros r sid H. destruct (is_master r sid) eqn:E; [|reflexivity].
  apply is_master_true in E. contradiction.
Qed.

(* ------------------------------------------------------------------ *)
(** ** Room ids *)

Lemma trimStart_spec :
  forall s, exists pre,
    s = pre ++ trimStart s /\ all_spaces pre /\ starts_clean (trimStart s).
Proof.
  induction s as [|c s IH]; simpl.
  - exists []. repeat split; constructor.
  - destruct (is_js_space c) eqn:E.
    + destruct IH as (pre & Hs & Hpre & Hclean).
      exists (c :: pre). repeat split; auto.
      * simpl. congruence.
      * constructor; assumption.
    + exists []. repeat split; [constructor | exact E].
Qed.

Lemma trimEnd_spec :
  forall s, exists post,
    s = trimEnd s ++ post /\ all_spaces post /\ ends_clean (trimEnd s).
Proof.
  intros s. unfold trimEnd, ends_clean.
  destruct (trimStart_spec (rev s)) as (pre & Hs & Hpre & Hclean).
  exists (rev pre). repeat split.
  - rewrite <- rev_app_distr, <- Hs, rev_involutive. reflexivity.
  - apply Forall_rev. assumption.
  - rewrite rev_involutive. assumption.
Qed.

Lemma starts_clean_prefix :
  forall a b, starts_clean (a ++ b) -> starts_clean a.
Proof. intros [|c a] b; simpl; auto. Qed.

(** [trim] takes away a run of white space at each end and nothing else,
    and what is left neither starts nor ends with white space. *)
Lemma trim_spec :
  forall s, exists pre post,
    s = pre ++ trim s ++ post /\ all_spaces pre /\ all_spaces post
    /\ starts_clean (trim s) /\ ends_clean (trim s).
Proof.
  intros s. unfold trim.
  destruct (trimStart_spec s) as (pre & Hs & Hpre & Hclean).
  destruct (trimEnd_spec (trimStart s)) as (post & Ht & Hpost & Hend).
  exists pre, post. repeat split; auto.
  - rewrite <- Ht. assumption.
  - rewrite Ht in Hclean. eapply starts_clean_prefix. eassumption.
Qed.

Lemma trim_incl : forall s c, In c (trim s) -> In c s.
Proof.
  intros s c H. destruct (trim_spec s) as (pre & post & Hs & _).
  rewrite Hs. apply in_or_app. right. apply in_or_app. left. assumption.
Qed.

Lemma id_char_not_space :
  forall c, id_char c = true -> is_js_space c = false.
Proof.
  intros c H.
  assert (R : (45 <= c <= 122)%N).
  { unfold id_char in H.
    rewrite !orb_true_iff, !andb_true_iff, !N.leb_le, !N.eqb_eq in H. lia. }
  unfold is_js_space.
  replace (c <=? 13)%N with false by (symmetry; apply N.leb_gt; lia).
  replace (c <=? 8202)%N with true by (symmetry; apply N.leb_le; lia).
  replace (8192 <=? c)%N with false by (symmetry; apply N.leb_gt; lia).
  repeat match goal with
         | |- context [(c =? ?n)%N] =>
             replace (c =? n)%N with false
               by (symmetry; apply N.eqb_neq; lia)
         end.
  rewrite andb_false_r. reflexivity.
Qed.

Lemma trimStart_clean : forall s, starts_clean s -> trimStart s = s.
Proof.
  intros [|c s] H; simpl in *; [reflexivity|]. rewrite H. reflexivity.
Qed.

Lemma trim_clean :
  forall s, Forall (fun c => is_js_space c = false) s -> trim s = s.
Proof.
  intros s H. unfold trim, trimEnd.
  assert (C : forall l, Forall (fun c => is_js_space c = false) l ->
                        starts_clean l).
  { intros [|c l] Hl; simpl; [exact I | inversion Hl; assumption]. }
  rewrite (trimStart_clean s (C s H)).
  rewrite (trimStart_clean (rev s)) by (apply C, Forall_rev; exact H).
  apply rev_involutive.
Qed.

Lemma filter_all :
  forall (A : Type) (f : A -> bool) (l : list A),
    Forall (fun x => f x = true) l -> filter f l = l.
Proof.
  intros A f l H. induction H as [|x l Hx Hl IH]; simpl; [reflexivity|].
  rewrite Hx, IH. reflexivity.
Qed.

Lemma safeRoomId_string :
  forall rt s, safeRoomId rt (VStr s) = strip_non_id (slice0 32 (trim s)).
Proof.
  intros rt s. unfold safeRoomId, or_else. destruct s; reflexivity.
Qed.

Lemma safeRoomId_length : forall rt raw, List.length (safeRoomId rt raw) <= 32.
Proof.
  intros rt raw. unfold safeRoomId, strip_non_id, slice0.
  etransitivity; [apply filter_length_le | apply firstn_le_length].
Qed.

Lemma safeRoomId_chars :
  forall rt raw, Forall (fun c => id_char c = true) (safeRoomId rt raw).
Proof.
  intros rt raw. unfold safeRoomId, strip_non_id.
  apply Forall_forall. intros c H. apply filter_In in H. tauto.
Qed.

Lemma id_char_spec : forall c, id_char c = true <-> allowed_code_unit c.
Proof.
  intros c. unfold id_char, allowed_code_unit.
  rewrite !orb_true_iff, !andb_true_iff, !N.leb_le, !N.eqb_eq. tauto.
Qed.

Lemma is_js_space_spec :
  forall c, is_js_space c = true <-> white_space_code_unit c.
Proof.
  intros c. unfold is_js_space, white_space_code_unit. simpl In.
  rewrite !orb_true_iff, !andb_true_iff, !N.leb_le, !N.eqb_eq. lia.
Qed.

Lemma safeRoomId_filter :
  forall rt s, safeRoomId rt (VStr s) = filter id_char (firstn 32 (trim s)).
Proof. intros rt s. rewrite safeRoomId_string. reflexivity. Qed.

Lemma safeRoomId_fixes_ids :
  forall rt s,
    List.length s <= 32 -> Forall (fun c => id_char c = true) s ->
    safeRoomId rt (VStr s) = s.
Proof.
  intros rt s Hl Hc. rewrite safeRoomId_filter.
  rewrite trim_clean
    by (eapply Forall_impl; [|exact Hc]; apply id_char_not_space).
  rewrite firstn_all2 by exact Hl. apply filter_all. exact Hc.
Qed.

(** C4.  [safeRoomId] applied to a string trims it (white space and line
    terminators taken off both ends and nothing else), keeps the first 32
    code units of what is left, and of these keeps, in their order,
    exactly the ones in [[A-Za-z0-9_-]]: every other one is dropped and
    none of these is.  So, whatever the input, the id has at most 32
    characters, all of them allowed; a string with no allowed character
    gives the empty id; a string of at most 32 allowed characters is its
    own id; and [room:create] and [room:join] answer an empty id with the
    invalid-id error to the caller and leave the registry as it was. *)
Theorem safeRoomId_sanitizes :
  forall rt,
    (forall s,
        safeRoomId rt (VStr s) = filter id_char (firstn 32 (trim s))
        /\ safeRoomId rt (VStr s) = strip_non_id (slice0 32 (trim s))
        /\ exists pre post,
            s = pre ++ trim s ++ post /\ all_spaces pre /\ all_spaces post
            /\ starts_clean (trim s) /\ ends_clean (trim s))
    /\ (forall s c,
           In c (safeRoomId rt (VStr s))
           <-> In c (firstn 32 (trim s)) /\ allowed_code_unit c)
    /\ (forall c,
           (id_char c = true <-> allowed_code_unit c)
           /\ (is_js_space c = true <-> white_space_code_unit c))
    /\ (forall raw,
           List.length (safeRoomId rt raw) <= 32
           /\ Forall (fun c => id_char c = true) (safeRoomId rt raw))
    /\ (forall s,
           Forall (fun c => id_char c = false) s ->
           safeRoomId rt (VStr s) = [])
    /\ (forall s,
           List.length s <= 32 ->
           Forall (fun c => id_char c = true) s ->
           safeRoomId rt (VStr s) = s)
    /\ (forall rooms sid raw name,
           safeRoomId rt raw = [] ->
           step rt rooms sid (RoomCreate raw name)
           = (rooms, [SocketEmit sid (ErrorMsg "Room ID inválido.")])
           /\ step rt rooms sid (RoomJoin raw name)
              = (rooms, [SocketEmit sid (ErrorMsg "Room ID inválido.")])).
Proof.
  intros rt.
  split; [|split; [|split; [|split; [|split; [|split]]]]].
  - intros s. split; [apply safeRoomId_filter|].
    split; [apply safeRoomId_string | apply trim_spec].
  - intros s c. rewrite safeRoomId_filter, filter_In, id_char_spec.
    reflexivity.
  - intros c. split; [apply id_char_spec | apply is_js_space_spec].
  - intros raw. split; [apply safeRoomId_length | apply safeRoomId_chars].
  - intros s Hs. rewrite safeRoomId_filter.
    rewrite Forall_forall in Hs.
    assert (H : forall l : jsstring,
               (forall c, In c l -> id_char c = false) ->
               filter id_char l = []).
    { induction l as [|c l IH]; intros Hl; simpl; [reflexivity|].
      rewrite (Hl c (or_introl eq_refl)). apply IH.
      intros c' Hc'. apply Hl. right. assumption. }
    apply H. intros c Hc. apply Hs, trim_incl.
    rewrite <- (firstn_skipn 32 (trim s)). apply in_or_app. left. exact Hc.
  - intros s Hl Hc. apply safeRoomId_fixes_ids; assumption.
  - intros rooms sid raw name H. simpl.
    unfold on_room_create, on_room_join. rewrite H. split; reflexivity.
Qed.

Lemma safeRoomId_sanitizes_witness :
  safeRoomId demo_runtime (VStr (lit " a/b ")) = lit "ab"
  /\ safeRoomId demo_runtime (VStr (lit "my room")) = lit "myroom"
  /\ safeRoomId demo_runtime (VStr (lit "Sala_7-b")) = lit "Sala_7-b"
  /\ safeRoomId demo_runtime (VStr (lit " !/? ")) = []
  /\ step demo_runtime [] (lit "c1") (RoomJoin (VStr (lit " !/? ")) VNull)
     = ([], [SocketEmit (lit "c1") (ErrorMsg "Room ID inválido.")]).
Proof.
  pose proof (safeRoomId_sanitizes demo_runtime)
    as (Hstr & _ & _ & _ & Hnone & Hid & Hempty).
  split; [|split; [|split; [|split]]].
  - rewrite (proj1 (Hstr (lit " a/b "))). reflexivity.
  - rewrite (proj1 (Hstr (lit "my room"))). reflexivity.
  - apply Hid; [simpl; lia | repeat constructor].
  - apply Hnone. repeat constructor.
  - apply Hempty. reflexivity.
Defined.

(** The specification's example: [" a/b!c "] five times over. *)
Example safeRoomId_example :
  let s := lit " a/b!c " in
  safeRoomId demo_runtime (VStr (s ++ s ++ s ++ s ++ s))
  = lit "abcabcabcabcab".
Proof. reflexivity. Qed.

(* ------------------------------------------------------------------ *)
(** ** The summary of a sheet *)

(** The specification's examples.  The first holds as written, for the
    number the engine reads in ["12"]. *)
Example extractSummary_example_strings :
  forall rt,
    extractSummaryFromSheet rt
      (VObj [(lit "hp_now", VStr (lit "12")); (lit "pd_now", VStr [])])
    = {| s_hp := VNum (StringToNumber rt (lit "12")); s_pd := VNull;
         s_name := VNull |}.
Proof. reflexivity. Qed.

Example extractSummary_example_resources :
  forall rt,
    extractSummaryFromSheet rt
      (VObj [(lit "resources",
              VObj [(lit "hp", VNum 5%float); (lit "pd", VNum 3%float)])])
    = {| s_hp := VNum 5%float; s_pd := VNum 3%float; s_name := VNull |}.
Proof. reflexivity. Qed.

(** An empty string under [hp_now] ends the search: [resources.hp] is not
    consulted, and the summary holds [null]. *)
Example extractSummary_empty_string_wins :
  forall rt,
    s_hp (extractSummaryFromSheet rt
            (VObj [(lit "hp_now", VStr []);
                   (lit "resources", VObj [(lit "hp", VNum 5%float)])]))
    = VNull.
Proof. reflexivity. Qed.

(** C3.  A document that has neither [hp_now] nor [resources.hp] does not
    get [hp = null]: the [null] the fallback chain ends in goes through
    [Number], and the summary holds the number 0.  The same holds of [pd]. *)
Theorem extractSummary_absent_is_zero :
  forall rt sheet,
    get sheet "hp_now" = VUndefined ->
    get (get sheet "resources") "hp" = VUndefined ->
    get sheet "pd_now" = VUndefined ->
    get (get sheet "resources") "pd" = VUndefined ->
    s_hp (extractSummaryFromSheet rt sheet) = VNum 0%float
    /\ s_pd (extractSummaryFromSheet rt sheet) = VNum 0%float.
Proof.
  intros rt sheet H1 H2 H3 H4. unfold extractSummaryFromSheet. simpl.
  rewrite H1, H2, H3, H4. split; reflexivity.
Qed.

Lemma extractSummary_absent_is_zero_witness :
  s_hp (extractSummaryFromSheet demo_runtime (VObj [])) = VNum 0%float
  /\ s_pd (extractSummaryFromSheet demo_runtime (VObj [])) = VNum 0%float.
Proof.
  apply (@extractSummary_absent_is_zero demo_runtime (VObj []));
    reflexivity.
Defined.

(* ------------------------------------------------------------------ *)
(** ** The master's index *)

Section Index.

Variable rt : Runtime.

Lemma push_player_spec :
  forall r acc e,
    push_player rt r acc e
    = acc ++ (if is_player e then [index_of_player rt r e] else []).
Proof.
  intros r acc [sid u]. unfold push_player, is_player, index_of_player, prop.
  simpl. destruct (u_role u); [rewrite app_nil_r; reflexivity|].
  f_equal. f_equal.
  destruct (lookup sid (sheets r)) as [sh|]; simpl.
  - destruct (truthy sh) eqn:T; simpl.
    + reflexivity.
    + unfold or_else. simpl. destruct (u_name u); reflexivity.
  - unfold or_else. simpl. destruct (u_name u); reflexivity.
Qed.

Lemma fold_push_player :
  forall r l acc,
    fold_left (push_player rt r) l acc
    = acc ++ map (index_of_player rt r) (filter is_player l).
Proof.
  induction l as [|e l IH]; intros acc; simpl.
  - rewrite app_nil_r. reflexivity.
  - rewrite IH, push_player_spec. destruct (is_player e); simpl.
    + rewrite <- app_assoc. reflexivity.
    + rewrite app_nil_r. reflexivity.
Qed.

Lemma fold_push_npc :
  forall l acc, fold_left (push_npc rt) l acc = acc ++ map (index_of_npc rt) l.
Proof.
  induction l as [|[nid sh] l IH]; intros acc; simpl.
  - rewrite app_nil_r. reflexivity.
  - rewrite IH. unfold push_npc. rewrite <- app_assoc. reflexivity.
Qed.


End Index.


(* ------------------------------------------------------------------ *)
(** ** Creating and joining a room *)

(** C1.  While the master of a room is still among its users, a further
    [room:create] for the room's id emits one thing only, the
    already-has-master error on the caller's own socket, and the registry
    (so the room's master, users, sheets, NPCs and rolls) is what it was.
    Connection ids are never the empty string. *)
Theorem second_create_rejected :
  forall rt rooms sid raw name r m u,
    safeRoomId rt raw <> [] ->
    lookup (safeRoomId rt raw) rooms = Some r ->
    masterSocketId r = Some m ->
    m <> [] ->
    lookup m (users r) = Some u ->
    step rt rooms sid (RoomCreate raw name)
    = (rooms,
       [SocketEmit sid
          (ErrorMsg "Essa sala já tem mestre. Entre como Player.")])
    /\ lookup (safeRoomId rt raw) (fst (step rt rooms sid (RoomCreate raw name)))
       = Some r.
Proof.
  intros rt rooms sid raw name r m u Hid Hr Hm Hne Hu.
  assert (E : step rt rooms sid (RoomCreate raw name)
              = (rooms,
                 [SocketEmit sid
                    (ErrorMsg "Essa sala já tem mestre. Entre como Player.")])).
  { simpl. unfold on_room_create, ensureRoom.
    destruct (is_empty (safeRoomId rt raw)) eqn:E.
    - apply is_empty_true in E. contradiction.
    - rewrite Hr. unfold live_master, has. rewrite Hm, Hu.
      destruct m; [contradiction | reflexivity]. }
  rewrite E. split; [reflexivity | exact Hr].
Qed.

Lemma second_create_rejected_witness :
  let rooms := fst (step demo_runtime [] (lit "m1")
                      (RoomCreate (VStr (lit "sala")) (VStr (lit "Gm")))) in
  step demo_runtime rooms (lit "c2")
    (RoomCreate (VStr (lit " sala ")) VUndefined)
  = (rooms,
     [SocketEmit (lit "c2")
        (ErrorMsg "Essa sala já tem mestre. Entre como Player.")]).
Proof.
  refine (proj1 (@second_create_rejected demo_runtime _ (lit "c2")
                   (VStr (lit " sala ")) VUndefined _ (lit "m1") _
                   _ _ _ _ _)).
  - discriminate.
  - reflexivity.
  - reflexivity.
  - discriminate.
  - reflexivity.
Defined.



(** The specification's scenario: a join before any create is refused; after
    the create, the joiner gets [roll:history] with an empty list. *)
Example join_ordering_example :
  let sala := VStr (lit "sala") in
  let rooms1 := fst (step demo_runtime [] (lit "m1") (RoomCreate sala VNull)) in
  snd (step demo_runtime [] (lit "p1") (RoomJoin sala VNull))
  = [SocketEmit (lit "p1") (ErrorMsg "Sala não existe (ou está sem mestre).")]
  /\ In (SocketEmit (lit "p1") (RollHistory []))
        (snd (step demo_runtime rooms1 (lit "p1") (RoomJoin sala VNull))).
Proof. split; [reflexivity | simpl; tauto]. Qed.

(* ------------------------------------------------------------------ *)
(** ** Authority of the master *)

(** C6.  In a room whose master is not the caller, [master:updateSheet],
    [npc:create], [npc:update] and [npc:delete] each emit exactly one
    thing, an error message on the caller's own socket, and leave the
    registry (the room's users, sheets, NPCs, rolls and master with it)
    untouched. *)
Theorem non_master_mutation_rejected :
  forall rt rooms sid raw r,
    lookup (safeRoomId rt raw) rooms = Some r ->
    masterSocketId r <> Some sid ->
    (forall owner sheet,
        step rt rooms sid (MasterUpdateSheet raw owner sheet)
        = (rooms,
           [SocketEmit sid
              (ErrorMsg "Apenas o mestre pode editar fichas de outros.")]))
    /\ (forall sheet suffix,
           step rt rooms sid (NpcCreate raw sheet suffix)
           = (rooms, [SocketEmit sid (ErrorMsg "Só o mestre pode criar NPC.")]))
    /\ (forall npcId sheet,
           step rt rooms sid (NpcUpdate raw npcId sheet)
           = (rooms, [SocketEmit sid (ErrorMsg "Só o mestre pode editar NPC.")]))
    /\ (forall npcId,
           step rt rooms sid (NpcDelete raw npcId)
           = (rooms,
              [SocketEmit sid (ErrorMsg "Só o mestre pode excluir NPC.")])).
Proof.
  intros rt rooms sid raw r Hr Hm.
  pose proof (is_master_false r Hm) as E.
  repeat split; intros; simpl;
    unfold on_master_update_sheet, on_npc_create, on_npc_update,
      on_npc_delete;
    rewrite Hr, E; reflexivity.
Qed.

Lemma non_master_mutation_rejected_witness :
  let rooms := fst (step demo_runtime [] (lit "m1")
                      (RoomCreate (VStr (lit "sala")) VNull)) in
  step demo_runtime rooms (lit "p1")
    (NpcCreate (VStr (lit "sala")) (VObj []) (lit "k3x9q2ab"))
  = (rooms, [SocketEmit (lit "p1") (ErrorMsg "Só o mestre pode criar NPC.")]).
Proof.
  refine (proj1 (proj2 (@non_master_mutation_rejected demo_runtime _
                          (lit "p1") (VStr (lit "sala")) _ _ _)) _ _).
  - reflexivity.
  - discriminate.
Defined.

(** C7.  [room:requestIndex] and [npc:request] from a connection that is
    not the master of the room named (or naming no room at all) emit
    nothing, to nobody, and leave the registry untouched. *)
Theorem non_master_reads_ignored :
  forall rt rooms sid raw,
    (forall r, lookup (safeRoomId rt raw) rooms = Some r ->
               masterSocketId r <> Some sid) ->
    step rt rooms sid (RoomRequestIndex raw) = (rooms, [])
    /\ forall npcId, step rt rooms sid (NpcRequest raw npcId) = (rooms, []).
Proof.
  intros rt rooms sid raw H. simpl. unfold on_request_index, on_npc_request.
  destruct (lookup (safeRoomId rt raw) rooms) as [r|].
  - rewrite (is_master_false r (H r eq_refl)). split; reflexivity.
  - split; reflexivity.
Qed.

Lemma non_master_reads_ignored_witness :
  let rooms := fst (step demo_runtime [] (lit "m1")
                      (RoomCreate (VStr (lit "sala")) VNull)) in
  step demo_runtime rooms (lit "p1") (RoomRequestIndex (VStr (lit "sala")))
  = (rooms, []).
Proof.
  refine (proj1 (@non_master_reads_ignored demo_runtime _ (lit "p1")
                   (VStr (lit "sala")) _)).
  intros r H. inversion H. discriminate.
Defined.

(* ------------------------------------------------------------------ *)
(** ** Losing a connection *)

Lemma on_disconnect_skip :
  forall rt pre rest sid,
    (forall id' r', In (id', r') pre -> lookup sid (users r') = None) ->
    on_disconnect rt (pre ++ rest) sid
    = (pre ++ fst (on_disconnect rt rest sid),
       snd (on_disconnect rt rest sid)).
Proof.
  induction pre as [|[id0 r0] pre IH]; intros rest sid H; simpl.
  - destruct (on_disconnect rt rest sid). reflexivity.
  - unfold has. rewrite (H id0 r0 (or_introl eq_refl)).
    rewrite IH; [reflexivity|].
    intros id' r' Hin. apply (H id' r'). right. assumption.
Qed.

(** C8.  Let [roomId] be the first room, in the order of the registry,
    that has the connection among its users.  A [disconnect] changes that
    room and no other: the connection leaves [users]; the master id is
    cleared if it was the connection's and kept otherwise; sheets, NPCs
    and rolls stay (the connection's own sheet too).  The no-master notice
    goes to the room's group exactly when the connection was the master;
    after it, when the room still has a master, the index of the room as
    it now is goes to that master, and nothing else is emitted.  The room
    is taken out of the registry exactly when its users are now none. *)
Theorem disconnect_spec :
  forall rt pre roomId r post sid,
    (forall id' r', In (id', r') pre -> lookup sid (users r') = None) ->
    lookup sid (users r) <> None ->
    let r' := {| masterSocketId :=
                   if is_master r sid then None else masterSocketId r;
                 users := remove sid (users r);
                 sheets := sheets r; npcs := npcs r; rolls := rolls r |} in
    step rt (pre ++ (roomId, r) :: post) sid Disconnect
    = (pre ++ (match users r' with
               | [] => []
               | _ :: _ => [(roomId, r')]
               end) ++ post,
       (if is_master r sid
        then [IoToEmit (VStr roomId)
                (ErrorMsg "O mestre desconectou. Sala ficou sem mestre.")]
        else [])
       ++ (match masterSocketId r' with
           | Some m => if is_empty m then []
                       else [IoToEmit (VStr m)
                               (SheetsIndex (buildIndex rt r'))]
           | None => []
           end))
    /\ lookup sid (users r') = None.
Proof.
  intros rt pre roomId r post sid Hpre Hin r'. split.
  - simpl step. rewrite on_disconnect_skip by assumption.
    simpl. unfold has.
    destruct (lookup sid (users r)) as [u|]; [|contradiction].
    unfold leave_room, emitIndex, master_value, with_master, with_users.
    subst r'. simpl.
    destruct (is_master r sid) eqn:Em; simpl.
    + destruct (remove sid (users r)); reflexivity.
    + destruct (masterSocketId r) as [[|c m]|]; simpl;
        destruct (remove sid (users r)); reflexivity.
  - simpl. apply lookup_remove_same.
Qed.

Lemma disconnect_spec_witness :
  let gm := {| u_name := lit "Mestre"; u_role := master |} in
  let ana := {| u_name := lit "Ana"; u_role := player |} in
  let r := {| masterSocketId := Some (lit "m1");
              users := [(lit "m1", gm); (lit "p1", ana)];
              sheets := []; npcs := []; rolls := [] |} in
  step demo_runtime [(lit "sala", r)] (lit "m1") Disconnect
  = ([(lit "sala",
       {| masterSocketId := None; users := [(lit "p1", ana)];
          sheets := []; npcs := []; rolls := [] |})],
     [IoToEmit (VStr (lit "sala"))
        (ErrorMsg "O mestre desconectou. Sala ficou sem mestre.")]).
Proof.
  refine (proj1 (@disconnect_spec demo_runtime [] (lit "sala") _ []
                   (lit "m1") _ _)).
  - intros id' r' [].
  - discriminate.
Defined.

(** The specification's scenario: a master and two players; the master
    goes, the room stays without master and the notice goes to the room;
    the two players go, and the room goes with the last. *)
Example master_disconnect_example :
  let sala := VStr (lit "sala") in
  let '(rooms3, _) :=
    run demo_runtime []
      [(lit "m1", RoomCreate sala VNull); (lit "p1", RoomJoin sala VNull);
       (lit "p2", RoomJoin sala VNull)] in
  let '(rooms4, out4) := step demo_runtime rooms3 (lit "m1") Disconnect in
  let '(rooms5, _) := step demo_runtime rooms4 (lit "p1") Disconnect in
  let '(rooms6, _) := step demo_runtime rooms5 (lit "p2") Disconnect in
  out4 = [IoToEmit sala
            (ErrorMsg "O mestre desconectou. Sala ficou sem mestre.")]
  /\ option_map masterSocketId (lookup (lit "sala") rooms4) = Some None
  /\ option_map (fun r => map fst (users r)) (lookup (lit "sala") rooms4)
     = Some [lit "p1"; lit "p2"]
  /\ has (lit "sala") rooms5 = true
  /\ rooms6 = [].
Proof. repeat split. Qed.

(* ------------------------------------------------------------------ *)
(** ** How one event changes the rooms of the registry *)

Section Frame.

Variable rt : Runtime.

Ltac stored H L :=
  apply In_store in H; destruct H as [H|H];
  [ inversion H; subst; right; eexists; split;
    [ left; apply lookup_In; exact L | ]
  | left; exact H ].

Lemma on_disconnect_cons :
  forall roomId r rest sid,
    on_disconnect rt ((roomId, r) :: rest) sid
    = if has sid (users r) then
        let (r', out) := leave_room rt roomId r sid in
        (if (List.length (users r') =? 0)%nat then rest
         else (roomId, r') :: rest, out)
      else
        let (rest', out) := on_disconnect rt rest sid in
        ((roomId, r) :: rest', out).
Proof. reflexivity. Qed.

Lemma on_disconnect_In :
  forall rooms sid ev id r',
    In (id, r') (fst (on_disconnect rt rooms sid)) ->
    In (id, r') rooms
    \/ exists r, In (id, r) rooms /\ room_update rt rooms sid ev id r r'.
Proof.
  intros rooms0 sid ev id r'.
  assert (G : forall rooms,
             In (id, r') (fst (on_disconnect rt rooms sid)) ->
             In (id, r') rooms
             \/ exists r, In (id, r) rooms
                          /\ room_update rt rooms0 sid ev id r r').
  { induction rooms as [|[id0 r0] rooms IH]; [simpl; tauto|].
    rewrite on_disconnect_cons.
    destruct (has sid (users r0)).
    - destruct (leave_room rt id0 r0 sid) as [r1 out] eqn:E.
      destruct (List.length (users r1) =? 0)%nat; simpl.
      + auto.
      + intros [H|H]; [|auto].
        inversion H; subst. right. exists r0. split; [auto|].
        replace r' with (fst (leave_room rt id r0 sid)) by (rewrite E; auto).
        constructor.
    - destruct (on_disconnect rt rooms sid) as [rest' out]. simpl in *.
      intros [H|H]; [auto|].
      destruct (IH H) as [H'|(r & H' & U)]; [auto|].
      right. exists r. auto. }
  apply G.
Qed.

(** Every room of the registry after an event was there before, or is a
    room of before (or the room [ensureRoom] makes) rewritten in one of
    the ways of [room_update]. *)
Lemma step_In :
  forall rooms sid ev id r',
    In (id, r') (fst (step rt rooms sid ev)) ->
    In (id, r') rooms
    \/ exists r, (In (id, r) rooms \/ r = emptyRoom)
                 /\ room_update rt rooms sid ev id r r'.
Proof.
  intros rooms sid ev id r'. destruct ev; simpl.
  - (* room:create *)
    unfold on_room_create, ensureRoom.
    destruct (is_empty (safeRoomId rt roomId)); simpl; [auto|].
    destruct (lookup (safeRoomId rt roomId) rooms) as [r|] eqn:L.
    + destruct (live_master r); simpl; [auto|].
      intros H. stored H L. apply upd_create. reflexivity.
    + simpl. rewrite store_store. intros H.
      apply In_store in H. destruct H as [H|H]; [|auto].
      inversion H; subst. right. exists emptyRoom. split; [auto|].
      apply (upd_create rt rooms sid _ _ emptyRoom
               {| u_name := clip_name rt name "Mestre"; u_role := master |}).
      reflexivity.
  - (* room:join *)
    unfold on_room_join.
    destruct (is_empty (safeRoomId rt roomId)); simpl; [auto|].
    destruct (lookup (safeRoomId rt roomId) rooms) as [r|] eqn:L; [|auto].
    destruct (negb (truthy (master_value r))); simpl; [auto|].
    intros H. stored H L. eapply upd_join; [reflexivity | exact L | reflexivity].
  - (* room:requestIndex *)
    unfold on_request_index.
    destruct (lookup (safeRoomId rt roomId) rooms) as [r|]; [|auto].
    destruct (negb (is_master r sid)); auto.
  - (* sheet:save *)
    unfold on_sheet_save.
    destruct (lookup (safeRoomId rt roomId) rooms) as [r|] eqn:L; [|auto].
    destruct (negb (has sid (users r))); simpl; [auto|].
    intros H. stored H L. apply upd_sheets.
  - (* master:requestSheet *)
    unfold on_master_request_sheet.
    destruct (lookup (safeRoomId rt roomId) rooms) as [r|]; [|auto].
    destruct (negb (is_master r sid)); [auto|].
    destruct (negb (truthy _)); auto.
  - (* master:updateSheet *)
    unfold on_master_update_sheet.
    destruct (lookup (safeRoomId rt roomId) rooms) as [r|] eqn:L; [|auto].
    destruct (negb (is_master r sid)); simpl; [auto|].
    intros H. stored H L. apply upd_sheets.
  - (* npc:create *)
    unfold on_npc_create.
    destruct (lookup (safeRoomId rt roomId) rooms) as [r|] eqn:L; [|auto].
    destruct (negb (is_master r sid)); simpl; [auto|].
    intros H. stored H L. apply upd_npcs.
  - (* npc:request *)
    unfold on_npc_request.
    destruct (lookup (safeRoomId rt roomId) rooms) as [r|]; [|auto].
    destruct (negb (is_master r sid)); [auto|].
    destruct (negb (truthy _)); auto.
  - (* npc:update *)
    unfold on_npc_update.
    destruct (lookup (safeRoomId rt roomId) rooms) as [r|] eqn:L; [|auto].
    destruct (negb (is_master r sid)); simpl; [auto|].
    destruct (negb (truthy _)); simpl; [auto|].
    intros H. stored H L. apply upd_npcs.
  - (* npc:delete *)
    unfold on_npc_delete.
    destruct (lookup (safeRoomId rt roomId) rooms) as [r|] eqn:L; [|auto].
    destruct (negb (is_master r sid)); simpl; [auto|].
    intros H. stored H L. apply upd_npcs.
  - (* roll:send *)
    unfold on_roll_send.
    destruct (lookup (safeRoomId rt roomId) rooms) as [r|] eqn:L; [|auto].
    destruct (lookup sid (users r)) as [u|]; simpl; [|auto].
    intros H. stored H L. apply upd_rolls.
  - (* disconnect *)
    intros H. destruct (on_disconnect_In rooms sid Disconnect id r' H)
      as [H'|(r & H' & U)]; [auto|].
    right. exists r. auto.
Qed.

(** Invariants of rooms: what the empty room has and every rewriting by
    an allowed event keeps, every room of a reachable registry has. *)
Lemma reachable_if_invariant :
  forall (ok : registry -> jsstring -> event -> Prop) (P : room -> Prop),
    P emptyRoom ->
    (forall rooms sid ev id r r',
        ok rooms sid ev -> P r ->
        room_update rt rooms sid ev id r r' -> P r') ->
    forall rooms,
      reachable_if rt ok rooms -> forall id r, In (id, r) rooms -> P r.
Proof.
  intros ok P Hempty Hupd rooms Hreach.
  induction Hreach as [|rooms sid ev Hreach IH Hok]; intros id r' Hin.
  - destruct Hin.
  - apply step_In in Hin. destruct Hin as [Hin|(r & [Hin| ->] & U)].
    + eapply IH. eassumption.
    + eapply Hupd; [exact Hok | eapply IH; exact Hin | exact U].
    + eapply Hupd; [exact Hok | exact Hempty | exact U].
Qed.

Lemma reachable_reachable_if :
  forall rooms,
    reachable rt rooms -> reachable_if rt (fun _ _ _ => True) rooms.
Proof.
  intros rooms H. induction H; constructor; auto.
Qed.

Lemma reachable_run :
  forall evs rooms, reachable rt rooms -> reachable rt (fst (run rt rooms evs)).
Proof.
  induction evs as [|[sid ev] evs IH]; intros rooms H; simpl; [exact H|].
  destruct (step rt rooms sid ev) as [rooms1 out1] eqn:E.
  specialize (IH rooms1).
  destruct (run rt rooms1 evs) as [rooms2 out2]. simpl in *.
  apply IH. replace rooms1 with (fst (step rt rooms sid ev)) by (rewrite E; auto).
  constructor. exact H.
Qed.

End Frame.

(* ------------------------------------------------------------------ *)
(** ** The roll ledger *)

Lemma roll_append_short :
  forall l e, List.length l < 50 -> roll_append l e = l ++ [e].
Proof.
  intros l e H. unfold roll_append.
  destruct (Nat.ltb_spec 50 (List.length (l ++ [e]))) as [G|G];
    [|reflexivity].
  rewrite length_app in G. simpl in G. lia.
Qed.

Lemma roll_append_full :
  forall l e, 50 <= List.length l -> roll_append l e = tl l ++ [e].
Proof.
  intros l e H. unfold roll_append.
  destruct (Nat.ltb_spec 50 (List.length (l ++ [e]))) as [G|G].
  - destruct l; [simpl in H; lia | reflexivity].
  - rewrite length_app in G. simpl in G. lia.
Qed.

Lemma roll_append_length :
  forall l e,
    List.length l <= 50 -> List.length (roll_append l e) <= 50.
Proof.
  intros l e H. destruct (Nat.lt_ge_cases (List.length l) 50) as [G|G].
  - rewrite roll_append_short by assumption.
    rewrite length_app. simpl. lia.
  - rewrite roll_append_full by assumption.
    rewrite length_app. destruct l; simpl in *; lia.
Qed.

Lemma tl_skipn :
  forall (A : Type) k (l : list A), tl (skipn k l) = skipn (S k) l.
Proof.
  induction k as [|k IH]; intros l.
  - destruct l; reflexivity.
  - destruct l; [reflexivity|]. simpl skipn at 1. rewrite IH. reflexivity.
Qed.

(** A run of appends keeps the newest 50 of everything ever held, oldest
    first. *)
Lemma fold_roll_append :
  forall es l,
    List.length l <= 50 ->
    fold_left roll_append es l
    = skipn (List.length (l ++ es) - 50) (l ++ es).
Proof.
  induction es as [|e es IH] using rev_ind; intros l H.
  - simpl. rewrite app_nil_r.
    replace (List.length l - 50) with 0 by lia. reflexivity.
  - rewrite fold_left_app. simpl. rewrite IH by assumption.
    rewrite app_assoc. set (L := l ++ es).
    rewrite (length_app L [e]). simpl List.length.
    destruct (Nat.lt_ge_cases (List.length L) 50) as [G|G].
    + replace (List.length L - 50) with 0 by lia.
      replace (List.length L + 1 - 50) with 0 by lia.
      simpl. apply roll_append_short. assumption.
    + rewrite roll_append_full
        by (rewrite length_skipn; lia).
      rewrite tl_skipn, skipn_app.
      replace (List.length L + 1 - 50) with (S (List.length L - 50)) by lia.
      replace (S (List.length L - 50) - List.length L) with 0 by lia.
      reflexivity.
Qed.

Lemma room_update_rolls :
  forall rt rooms sid ev id r r',
    room_update rt rooms sid ev id r r' ->
    rolls r' = rolls r \/ exists e, rolls r' = roll_append (rolls r) e.
Proof.
  intros rt rooms sid ev id r r' U. destruct U; simpl; eauto.
  unfold leave_room. simpl. destruct (is_master r sid); auto.
Qed.

(* ------------------------------------------------------------------ *)
(** ** The master of a room is one of its users *)

Lemma room_update_master_is_user :
  forall rt rooms sid ev id r r',
    master_is_user r -> room_update rt rooms sid ev id r r' ->
    master_is_user r'.
Proof.
  intros rt rooms sid ev id r r' P U m. destruct U; simpl; try exact (P m).
  - intros Hm. inversion Hm. subst m. rewrite lookup_store_same. eauto.
  - intros Hm. destruct (str_eqb m sid) eqn:E.
    + apply str_eqb_eq in E. subst m. rewrite lookup_store_same. eauto.
    + rewrite lookup_store_other by (apply str_eqb_false; exact E).
      exact (P m Hm).
  - destruct (is_master r sid) eqn:E; simpl; [discriminate|].
    intros Hm. rewrite lookup_remove_other; [exact (P m Hm)|].
    intros ->. apply is_master_true in Hm. congruence.
Qed.

Lemma room_update_master_has_role :
  forall rt rooms sid ev id r r',
    ~ master_rejoins rt rooms sid ev ->
    master_has_role r -> room_update rt rooms sid ev id r r' ->
    master_has_role r'.
Proof.
  intros rt rooms sid ev id r r' Hok P U m. destruct U; simpl;
    try exact (P m).
  - intros Hm. inversion Hm. subst m. rewrite lookup_store_same. eauto.
  - intros Hm. destruct (str_eqb m sid) eqn:E.
    + apply str_eqb_eq in E. subst m. exfalso. apply Hok.
      exists raw, name, r. auto.
    + rewrite lookup_store_other by (apply str_eqb_false; exact E).
      exact (P m Hm).
  - destruct (is_master r sid) eqn:E; simpl; [discriminate|].
    intros Hm. rewrite lookup_remove_other; [exact (P m Hm)|].
    intros ->. apply is_master_true in Hm. congruence.
Qed.

(** C10, as the code has it.  In every registry reachable from the empty
    one, the master id of a room, when not null, is a key of the room's
    users.  The user under it has role master in every registry reached
    by events among which no master sends [room:join] for its own room:
    that event stores a player entry under the master's id and leaves the
    master id in place. *)
Theorem master_is_registered :
  forall rt rooms id r,
    In (id, r) rooms ->
    (reachable rt rooms -> master_is_user r)
    /\ (reachable_if rt
          (fun rooms sid ev => ~ master_rejoins rt rooms sid ev) rooms ->
        master_has_role r).
Proof.
  intros rt rooms id r Hin. split; intros H.
  - apply reachable_reachable_if in H.
    refine (@reachable_if_invariant rt (fun _ _ _ => True) master_is_user
              _ _ rooms H id r Hin).
    + intros m Hm. discriminate.
    + intros rooms0 sid ev id0 r0 r' _. apply room_update_master_is_user.
  - refine (@reachable_if_invariant rt _ master_has_role _ _ rooms H id r Hin).
    + intros m Hm. discriminate.
    + intros rooms0 sid ev id0 r0 r'. apply room_update_master_has_role.
Qed.

Lemma master_is_registered_witness :
  let r := {| masterSocketId := Some (lit "m1");
              users := [(lit "m1", {| u_name := lit "Mestre";
                                      u_role := master |})];
              sheets := []; npcs := []; rolls := [] |} in
  master_is_user r /\ master_has_role r.
Proof.
  pose (create := RoomCreate (VStr (lit "sala")) VNull).
  pose proof (@master_is_registered demo_runtime
                (fst (step demo_runtime [] (lit "m1") create))
                (lit "sala") _ (or_introl eq_refl)) as [H1 H2].
  split.
  - apply H1. apply reach_step. apply reach_init.
  - apply H2.
    apply (@reach_if_step demo_runtime _ [] (lit "m1") create).
    + apply reach_if_init.
    + intros (raw & name & r & E & _). discriminate E.
Defined.

(** C10 with the role included fails: the master of a room joins it, and is
    then the room's master with the role of a player. *)
Lemma master_role_not_invariant :
  ~ (forall rooms,
        reachable demo_runtime rooms ->
        forall id r, In (id, r) rooms -> master_has_role r).
Proof.
  intros H.
  pose (evs := [(lit "m1", RoomCreate (VStr (lit "sala")) VNull);
                (lit "m1", RoomJoin (VStr (lit "sala")) VNull)]).
  pose proof (H (fst (run demo_runtime [] evs))
                (@reachable_run demo_runtime evs [] (reach_init demo_runtime))
                (lit "sala")
                {| masterSocketId := Some (lit "m1");
                   users := [(lit "m1", {| u_name := lit "Player";
                                           u_role := player |})];
                   sheets := []; npcs := []; rolls := [] |}
                (or_introl eq_refl) (lit "m1") eq_refl) as (u & Hu & Hrole).
  simpl in Hu. inversion Hu. subst u. discriminate.
Qed.

(* ------------------------------------------------------------------ *)
(** ** More on keyed collections *)

Section MoreCollections.

Variable A : Type.
Implicit Types (o : entries A) (k : jsstring) (v : A).

Lemma In_store_same : forall o k v, In (k, v) (store k v o).
Proof.
  induction o as [|[k0 v0] o IH]; intros k v; simpl; [auto|].
  destruct (str_eqb k k0); simpl; auto.
Qed.

Lemma lookup_None_keys : forall o k, lookup k o = None <-> ~ In k (keys o).
Proof.
  induction o as [|[k0 v0] o IH]; intros k; simpl; [tauto|].
  destruct (str_eqb k k0) eqn:E.
  - apply str_eqb_eq in E. subst k0. split; [discriminate | tauto].
  - apply str_eqb_false in E. rewrite IH. split.
    + intros H [H'|H']; [congruence | contradiction].
    + tauto.
Qed.

Lemma keys_store_present :
  forall o k v v0, lookup k o = Some v0 -> keys (store k v o) = keys o.
Proof.
  induction o as [|[k0 w] o IH]; intros k v v0; simpl; [discriminate|].
  destruct (str_eqb k k0) eqn:E; simpl.
  - apply str_eqb_eq in E. subst k0. reflexivity.
  - intros H. f_equal. eapply IH. eassumption.
Qed.

Lemma keys_store_absent :
  forall o k v, lookup k o = None -> keys (store k v o) = keys o ++ [k].
Proof.
  induction o as [|[k0 w] o IH]; intros k v; simpl; [reflexivity|].
  destruct (str_eqb k k0) eqn:E; simpl; [discriminate|].
  intros H. f_equal. apply IH. assumption.
Qed.

Lemma keys_remove : forall o k k', In k' (keys (remove k o)) -> In k' (keys o).
Proof.
  induction o as [|[k0 w] o IH]; intros k k'; simpl; [auto|].
  destruct (str_eqb k k0); simpl; intros H.
  - right. eapply IH. eassumption.
  - destruct H as [H|H]; [auto | right; eapply IH; eassumption].
Qed.

Lemma store_not_nil : forall o k v, store k v o <> [].
Proof.
  intros [|[k0 w] o] k v; simpl; [discriminate|].
  destruct (str_eqb k k0); discriminate.
Qed.

Lemma lookup_not_nil : forall o k v, lookup k o = Some v -> o <> [].
Proof. intros [|e o] k v; simpl; [discriminate | discriminate]. Qed.

End MoreCollections.

Lemma negb_false_true : forall b, negb b = false -> b = true.
Proof. intros []; simpl; congruence. Qed.

Lemma length_zero_nil :
  forall (A : Type) (l : list A), (List.length l =? 0)%nat = false -> l <> [].
Proof. intros A [|x l]; simpl; [discriminate | discriminate]. Qed.

(* ------------------------------------------------------------------ *)
(** ** What an event does to each room, in detail *)

Section Changes.

Variable rt : Runtime.

Ltac kept H L :=
  apply In_store in H; destruct H as [H|H];
  [ inversion H; subst; right; eexists; split;
    [ left; apply lookup_In; exact L | ]
  | left; exact H ].

Lemma on_disconnect_change :
  forall rooms sid id r',
    In (id, r') (fst (on_disconnect rt rooms sid)) ->
    In (id, r') rooms
    \/ exists r, In (id, r) rooms /\ room_change rt sid id r r'.
Proof.
  induction rooms as [|[id0 r0] rooms IH]; intros sid id r';
    [simpl; tauto|].
  rewrite on_disconnect_cons.
  destruct (has sid (users r0)) eqn:Hu.
  - destruct (leave_room rt id0 r0 sid) as [r1 out] eqn:E.
    destruct (List.length (users r1) =? 0)%nat eqn:Z; simpl.
    + auto.
    + intros [H|H]; [|auto].
      inversion H; subst. right. exists r0. split; [auto|].
      replace r' with (fst (leave_room rt id r0 sid)) in * by (rewrite E; auto).
      apply chg_leave; [exact Hu | apply length_zero_nil; exact Z].
  - destruct (on_disconnect rt rooms sid) as [rest' out] eqn:E. simpl.
    intros [H|H]; [auto|].
    specialize (IH sid id r'). rewrite E in IH.
    destruct (IH H) as [H'|(r & H' & U)]; [auto|].
    right. exists r. auto.
Qed.

(** Every room of the registry after an event was there before, or is a
    room of before (or the room [ensureRoom] makes) changed in one of the
    ways of [room_change]. *)
Lemma step_change :
  forall rooms sid ev id r',
    In (id, r') (fst (step rt rooms sid ev)) ->
    In (id, r') rooms
    \/ exists r, (In (id, r) rooms \/ r = emptyRoom)
                 /\ room_change rt sid id r r'.
Proof.
  intros rooms sid ev id r'. destruct ev; simpl.
  - unfold on_room_create, ensureRoom.
    destruct (is_empty (safeRoomId rt roomId)); simpl; [auto|].
    destruct (lookup (safeRoomId rt roomId) rooms) as [r|] eqn:L.
    + destruct (live_master r) eqn:M; simpl; [auto|].
      intros H. kept H L. apply chg_create. exact M.
    + simpl. rewrite store_store. intros H.
      apply In_store in H. destruct H as [H|H]; [|auto].
      inversion H; subst. right. exists emptyRoom. split; [auto|].
      apply (chg_create rt sid (safeRoomId rt roomId) emptyRoom name).
      reflexivity.
  - unfold on_room_join.
    destruct (is_empty (safeRoomId rt roomId)); simpl; [auto|].
    destruct (lookup (safeRoomId rt roomId) rooms) as [r|] eqn:L; [|auto].
    destruct (negb (truthy (master_value r))) eqn:M; simpl; [auto|].
    intros H. kept H L. apply chg_join. apply negb_false_true. exact M.
  - unfold on_request_index.
    destruct (lookup (safeRoomId rt roomId) rooms) as [r|]; [|auto].
    destruct (negb (is_master r sid)); auto.
  - unfold on_sheet_save.
    destruct (lookup (safeRoomId rt roomId) rooms) as [r|] eqn:L; [|auto].
    destruct (negb (has sid (users r))) eqn:M; simpl; [auto|].
    intros H. kept H L. apply chg_sheet_save. apply negb_false_true. exact M.
  - unfold on_master_request_sheet.
    destruct (lookup (safeRoomId rt roomId) rooms) as [r|]; [|auto].
    destruct (negb (is_master r sid)); [auto|].
    destruct (negb (truthy _)); auto.
  - unfold on_master_update_sheet.
    destruct (lookup (safeRoomId rt roomId) rooms) as [r|] eqn:L; [|auto].
    destruct (negb (is_master r sid)) eqn:M; simpl; [auto|].
    intros H. kept H L. apply chg_sheet_update. apply negb_false_true.
    exact M.
  - unfold on_npc_create.
    destruct (lookup (safeRoomId rt roomId) rooms) as [r|] eqn:L; [|auto].
    destruct (negb (is_master r sid)) eqn:M; simpl; [auto|].
    intros H. kept H L. apply chg_npc_create. apply negb_false_true. exact M.
  - unfold on_npc_request.
    destruct (lookup (safeRoomId rt roomId) rooms) as [r|]; [|auto].
    destruct (negb (is_master r sid)); [auto|].
    destruct (negb (truthy _)); auto.
  - unfold on_npc_update.
    destruct (lookup (safeRoomId rt roomId) rooms) as [r|] eqn:L; [|auto].
    destruct (negb (is_master r sid)) eqn:M; simpl; [auto|].
    destruct (negb (truthy _)) eqn:T; simpl; [auto|].
    intros H. kept H L.
    apply chg_npc_update; apply negb_false_true; assumption.
  - unfold on_npc_delete.
    destruct (lookup (safeRoomId rt roomId) rooms) as [r|] eqn:L; [|auto].
    destruct (negb (is_master r sid)) eqn:M; simpl; [auto|].
    intros H. kept H L. apply chg_npc_delete. apply negb_false_true. exact M.
  - unfold on_roll_send.
    destruct (lookup (safeRoomId rt roomId) rooms) as [r|] eqn:L; [|auto].
    destruct (lookup sid (users r)) as [u|] eqn:Hu; simpl; [|auto].
    intros H. kept H L. eapply chg_roll. exact Hu.
  - intros H. destruct (on_disconnect_change rooms sid id r' H)
      as [H'|(r & H' & U)]; [auto|].
    right. exists r. auto.
Qed.

(** Invariants of rooms, over [room_change]: what every first change of
    the empty room establishes and every later change keeps, every room of
    a registry reached by allowed events has. *)
Lemma reachable_if_room_invariant :
  forall (ok : registry -> jsstring -> event -> Prop)
         (P : jsstring -> room -> Prop),
    (forall rooms sid ev id r',
        ok rooms sid ev -> room_change rt sid id emptyRoom r' -> P id r') ->
    (forall rooms sid ev id r r',
        ok rooms sid ev -> P id r -> room_change rt sid id r r' -> P id r') ->
    forall rooms,
      reachable_if rt ok rooms -> forall id r, In (id, r) rooms -> P id r.
Proof.
  intros ok P Hempty Hchg rooms Hreach.
  induction Hreach as [|rooms sid ev Hreach IH Hok]; intros id r' Hin.
  - destruct Hin.
  - apply step_change in Hin. destruct Hin as [Hin|(r & [Hin| ->] & U)].
    + apply IH. exact Hin.
    + eapply Hchg; [exact Hok | apply IH; exact Hin | exact U].
    + eapply Hempty; [exact Hok | exact U].
Qed.

(** The empty room can only be changed by [room:create]. *)
Lemma change_of_emptyRoom :
  forall sid id r',
    room_change rt sid id emptyRoom r' ->
    exists name,
      r' = {| masterSocketId := Some sid;
              users := [(sid, {| u_name := clip_name rt name "Mestre";
                                 u_role := master |})];
              sheets := []; npcs := []; rolls := [] |}.
Proof.
  intros sid id r' U. inversion U; subst; try discriminate.
  exists name. reflexivity.
Qed.

End Changes.

(* ------------------------------------------------------------------ *)
(** ** Invariants of the rooms the server holds *)

Lemma In_keys_store :
  forall (A : Type) (o : entries A) k (v : A) k',
    In k' (keys (store k v o)) -> k' = k \/ In k' (keys o).
Proof.
  intros A o k v k' H. unfold keys in H. apply in_map_iff in H.
  destruct H as ([k0 v0] & E & H). simpl in E. subst k0.
  apply In_store in H. destruct H as [H|H].
  - inversion H. auto.
  - right. unfold keys. apply in_map_iff. exists (k', v0). auto.
Qed.

Lemma lookup_store_cases :
  forall (A : Type) (o : entries A) k (v : A) k' w,
    lookup k' (store k v o) = Some w ->
    (k' = k /\ w = v) \/ (k' <> k /\ lookup k' o = Some w).
Proof.
  intros A o k v k' w H. destruct (str_eqb k' k) eqn:E.
  - apply str_eqb_eq in E. subst k'. rewrite lookup_store_same in H.
    inversion H. auto.
  - apply str_eqb_false in E. rewrite lookup_store_other in H by exact E.
    auto.
Qed.

Lemma lookup_remove_cases :
  forall (A : Type) (o : entries A) k k' (w : A),
    lookup k' (remove k o) = Some w -> k' <> k /\ lookup k' o = Some w.
Proof.
  intros A o k k' w H. destruct (str_eqb k' k) eqn:E.
  - apply str_eqb_eq in E. subst k'. rewrite lookup_remove_same in H.
    discriminate.
  - apply str_eqb_false in E. rewrite lookup_remove_other in H by exact E.
    auto.
Qed.

Lemma leave_room_fields :
  forall rt id r sid,
    users (fst (leave_room rt id r sid)) = remove sid (users r)
    /\ sheets (fst (leave_room rt id r sid)) = sheets r
    /\ npcs (fst (leave_room rt id r sid)) = npcs r
    /\ rolls (fst (leave_room rt id r sid)) = rolls r
    /\ masterSocketId (fst (leave_room rt id r sid))
       = if is_master r sid then None else masterSocketId r.
Proof.
  intros rt id r sid. unfold leave_room. simpl.
  destruct (is_master r sid); simpl; repeat split; reflexivity.
Qed.

Lemma clip_name_length :
  forall rt v dflt, List.length (clip_name rt v dflt) <= 40.
Proof. intros rt v dflt. unfold clip_name, slice0. apply firstn_le_length. Qed.

Lemma roll_append_In :
  forall l e x, In x (roll_append l e) -> x = e \/ In x l.
Proof.
  intros l e x. unfold roll_append.
  assert (G : In x (l ++ [e]) -> x = e \/ In x l).
  { intros H. apply in_app_or in H. destruct H as [H|[H|[]]]; auto. }
  destruct (50 <? List.length (l ++ [e])); [|exact G].
  intros H. apply G. destruct (l ++ [e]); [exact H | right; exact H].
Qed.

Lemma reachable_if_run :
  forall rt (ok : registry -> jsstring -> event -> Prop) evs rooms,
    reachable_if rt ok rooms ->
    (forall rooms' sid ev, In (sid, ev) evs -> ok rooms' sid ev) ->
    reachable_if rt ok (fst (run rt rooms evs)).
Proof.
  intros rt ok. induction evs as [|[sid ev] evs IH]; intros rooms H Hok;
    simpl; [exact H|].
  destruct (step rt rooms sid ev) as [rooms1 out1] eqn:E.
  specialize (IH rooms1).
  destruct (run rt rooms1 evs) as [rooms2 out2]. simpl in *.
  apply IH.
  - replace rooms1 with (fst (step rt rooms sid ev)) by (rewrite E; auto).
    constructor; [exact H | apply Hok; auto].
  - intros rooms' sid' ev' Hin. apply Hok. auto.
Qed.

(** X1.  A room the server holds always has at least one user: a room is
    made by the [room:create] that puts its first user in, and the
    [disconnect] that takes the last user out deletes it. *)
Theorem rooms_never_without_users :
  forall rt rooms id r,
    reachable rt rooms -> In (id, r) rooms -> users r <> [].
Proof.
  intros rt rooms id r H Hin. apply reachable_reachable_if in H.
  refine (@reachable_if_room_invariant rt (fun _ _ _ => True)
            (fun _ r => users r <> []) _ _ rooms H id r Hin).
  - intros rooms0 sid ev id0 r' _ U.
    apply change_of_emptyRoom in U. destruct U as [name ->]. discriminate.
  - intros rooms0 sid ev id0 r0 r' _ P U.
    destruct U; simpl; try exact P; try apply store_not_nil.
    assumption.
Qed.

Lemma rooms_never_without_users_witness :
  Forall (fun e => users (snd e) <> []) sample_registry.
Proof.
  apply Forall_forall. intros [id r] Hin.
  apply (@rooms_never_without_users demo_runtime sample_registry id r).
  - apply reachable_run. apply reach_init.
  - exact Hin.
Defined.

Lemma sample_registry_reachable_if :
  reachable_if demo_runtime (fun _ sid _ => sid <> []) sample_registry.
Proof.
  apply reachable_if_run; [apply reach_if_init|].
  intros rooms' sid ev Hin. simpl in Hin.
  repeat (destruct Hin as [Hin|Hin]; [inversion Hin; discriminate|]).
  destruct Hin.
Qed.

Lemma sample_registry_reachable : reachable demo_runtime sample_registry.
Proof. apply reachable_run. apply reach_init. Qed.

(** X2.  When connection ids are non-empty, as the transport makes them,
    a room never has two masters: any user stored with the role of master
    is the connection [masterSocketId] names. *)
Theorem never_two_masters :
  forall rt rooms id r,
    reachable_if rt (fun _ sid _ => sid <> []) rooms ->
    In (id, r) rooms ->
    one_master r.
Proof.
  intros rt rooms id r H Hin.
  refine (proj2 (@reachable_if_room_invariant rt (fun _ sid _ => sid <> [])
            (fun _ r => (forall k u, lookup k (users r) = Some u -> k <> [])
                        /\ one_master r) _ _ rooms H id r Hin)).
  - intros rooms0 sid ev id0 r' Hsid U.
    apply change_of_emptyRoom in U. destruct U as [name ->].
    unfold one_master. simpl.
    split; intros k u; destruct (str_eqb k sid) eqn:E; try discriminate;
      apply str_eqb_eq in E; subst k; auto.
  - intros rooms0 sid ev id0 r0 r' Hsid [P1 P2] U.
    destruct U; try (split; [exact P1 | exact P2]).
    + (* room:create *)
      split.
      * simpl. intros k u Hk. apply lookup_store_cases in Hk.
        destruct Hk as [[-> _]|[_ Hk]]; [exact Hsid | exact (P1 k u Hk)].
      * intros k u Hk Hrole. simpl in *. apply lookup_store_cases in Hk.
        destruct Hk as [[-> _]|[_ Hk]]; [reflexivity|].
        exfalso. pose proof (P2 k u Hk Hrole) as Hm.
        pose proof (P1 k u Hk) as Hne.
        unfold live_master, has in H0. rewrite Hm, Hk in H0.
        destruct k; [contradiction | discriminate].
    + (* room:join *)
      split.
      * simpl. intros k u Hk. apply lookup_store_cases in Hk.
        destruct Hk as [[-> _]|[_ Hk]]; [exact Hsid | exact (P1 k u Hk)].
      * intros k u Hk Hrole. simpl in *. apply lookup_store_cases in Hk.
        destruct Hk as [[_ ->]|[_ Hk]]; [discriminate|].
        exact (P2 k u Hk Hrole).
    + (* disconnect *)
      destruct (leave_room_fields rt id0 r0 sid) as (Eu & _ & _ & _ & Em).
      split.
      * intros k u Hk. rewrite Eu in Hk. apply lookup_remove_cases in Hk.
        exact (P1 k u (proj2 Hk)).
      * intros k u Hk Hrole. rewrite Eu in Hk.
        apply lookup_remove_cases in Hk. destruct Hk as [Hne Hk].
        pose proof (P2 k u Hk Hrole) as Hm. rewrite Em.
        destruct (is_master r0 sid) eqn:E; [|exact Hm].
        apply is_master_true in E. congruence.
Qed.

Lemma never_two_masters_witness :
  Forall (fun e => one_master (snd e)) sample_registry.
Proof.
  apply Forall_forall. intros [id r] Hin.
  apply (@never_two_masters demo_runtime sample_registry id r).
  - exact sample_registry_reachable_if.
  - exact Hin.
Defined.

Lemma reachable_if_reachable :
  forall rt (ok : registry -> jsstring -> event -> Prop) rooms,
    reachable_if rt ok rooms -> reachable rt rooms.
Proof. intros rt ok rooms H. induction H; constructor; assumption. Qed.

(** X3.  As long as no [npc:update] names a member of [Object.prototype]
    (for such a name the test [room.npcs[npcId]] finds the inherited
    member, and the update then stores under that name), every NPC a room
    holds is stored under an id that starts with ["npc_"]: [npc:create]
    makes such ids, [npc:update] only writes under an id already there,
    and [npc:delete] only removes. *)
Theorem npc_ids_prefixed :
  forall rt rooms id r k,
    reachable_if rt (plain_npc_update rt) rooms -> In (id, r) rooms ->
    In k (keys (npcs r)) ->
    has_prefix (lit "npc_") k = true.
Proof.
  intros rt rooms id r k H Hin.
  apply reachable_if_reachable, reachable_reachable_if in H.
  revert k.
  refine (@reachable_if_room_invariant rt (fun _ _ _ => True)
            (fun _ r => forall k, In k (keys (npcs r)) ->
                                  has_prefix (lit "npc_") k = true)
            _ _ rooms H id r Hin).
  - intros rooms0 sid ev id0 r' _ U.
    apply change_of_emptyRoom in U. destruct U as [name ->].
    intros k [].
  - intros rooms0 sid ev id0 r0 r' _ P U.
    destruct U; try exact P.
    + simpl. intros k Hk. apply In_keys_store in Hk.
      destruct Hk as [->|Hk]; [|exact (P k Hk)].
      reflexivity.
    + simpl. intros k Hk. unfold prop in H1.
      destruct (lookup (ToString rt npcId) (npcs r0)) as [v0|] eqn:L;
        [|discriminate].
      rewrite (keys_store_present _ _ sheet L) in Hk. exact (P k Hk).
    + simpl. intros k Hk. apply keys_remove in Hk. exact (P k Hk).
    + destruct (leave_room_fields rt id0 r0 sid) as (_ & _ & En & _).
      rewrite En. exact P.
Qed.

Lemma sample_registry_plain :
  reachable_if demo_runtime (plain_npc_update demo_runtime) sample_registry.
Proof.
  apply reachable_if_run; [apply reach_if_init|].
  intros rooms' sid ev Hin. simpl in Hin.
  repeat (destruct Hin as [Hin|Hin]; [inversion Hin; exact I|]).
  destruct Hin.
Qed.

Lemma npc_ids_prefixed_witness :
  Forall (fun e => Forall (fun k => has_prefix (lit "npc_") k = true)
                     (keys (npcs (snd e)))) sample_registry.
Proof.
  apply Forall_forall. intros [id r] Hin.
  apply Forall_forall. intros k Hk.
  apply (@npc_ids_prefixed demo_runtime sample_registry id r k).
  - exact sample_registry_plain.
  - exact Hin.
  - exact Hk.
Defined.

(** X4.  Names are cut on the way in: every user of every room the server
    holds has a name of at most 40 code units, and so has every roll the
    room remembers; and every roll a room remembers carries that room's
    id. *)
Theorem names_and_rolls_wellformed :
  forall rt rooms id r,
    reachable rt rooms -> In (id, r) rooms ->
    (forall k u, lookup k (users r) = Some u -> List.length (u_name u) <= 40)
    /\ (forall e, In e (rolls r) ->
                  r_roomId e = id /\ List.length (r_name e) <= 40).
Proof.
  intros rt rooms id r H Hin. apply reachable_reachable_if in H.
  refine (@reachable_if_room_invariant rt (fun _ _ _ => True)
            (fun id r =>
               (forall k u, lookup k (users r) = Some u ->
                            List.length (u_name u) <= 40)
               /\ (forall e, In e (rolls r) ->
                             r_roomId e = id
                             /\ List.length (r_name e) <= 40))
            _ _ rooms H id r Hin).
  - intros rooms0 sid ev id0 r' _ U.
    apply change_of_emptyRoom in U. destruct U as [name ->]. simpl.
    split; [|intros e []].
    intros k u. destruct (str_eqb k sid); [|discriminate].
    intros E. inversion E. apply clip_name_length.
  - intros rooms0 sid ev id0 r0 r' _ [P1 P2] U.
    destruct U; try (split; [exact P1 | exact P2]).
    + split; [|exact P2]. simpl. intros k u Hk.
      apply lookup_store_cases in Hk.
      destruct Hk as [[_ ->]|[_ Hk]];
        [apply clip_name_length | exact (P1 k u Hk)].
    + split; [|exact P2]. simpl. intros k u Hk.
      apply lookup_store_cases in Hk.
      destruct Hk as [[_ ->]|[_ Hk]];
        [apply clip_name_length | exact (P1 k u Hk)].
    + split; [exact P1|]. simpl. intros e He.
      apply roll_append_In in He. destruct He as [->|He]; [|exact (P2 e He)].
      simpl. split; [reflexivity | exact (P1 sid u H0)].
    + destruct (leave_room_fields rt id0 r0 sid) as (Eu & _ & _ & Er & _).
      rewrite Eu, Er. split; [|exact P2].
      intros k u Hk. apply lookup_remove_cases in Hk.
      exact (P1 k u (proj2 Hk)).
Qed.

Lemma names_and_rolls_wellformed_witness :
  Forall (fun e => Forall (fun x => r_roomId x = fst e
                                    /\ List.length (r_name x) <= 40)
                     (rolls (snd e))) sample_registry.
Proof.
  apply Forall_forall. intros [id r] Hin.
  apply Forall_forall. intros x Hx.
  apply (proj2 (@names_and_rolls_wellformed demo_runtime sample_registry id r
                  sample_registry_reachable Hin)).
  exact Hx.
Defined.

(* ------------------------------------------------------------------ *)
(** ** Which rooms there are *)

Lemma on_disconnect_keys :
  forall rt rooms sid,
    keys (fst (on_disconnect rt rooms sid)) = keys rooms
    \/ exists pre k post,
        keys rooms = pre ++ k :: post
        /\ keys (fst (on_disconnect rt rooms sid)) = pre ++ post.
Proof.
  intros rt. induction rooms as [|[id0 r0] rooms IH]; intros sid;
    [left; reflexivity|].
  rewrite on_disconnect_cons.
  destruct (has sid (users r0)).
  - destruct (leave_room rt id0 r0 sid) as [r1 out].
    destruct (List.length (users r1) =? 0)%nat; simpl; [|auto].
    right. exists [], id0, (keys rooms). auto.
  - specialize (IH sid).
    destruct (on_disconnect rt rooms sid) as [rest' out]. simpl in *.
    destruct IH as [E|(pre & k & post & E1 & E2)].
    + left. congruence.
    + right. exists (id0 :: pre), k, post. simpl. split; congruence.
Qed.

(** The keys of the registry after an event: the same, or one more at the
    end for a [room:create] of a new id, or one fewer after a
    [disconnect]. *)
Lemma step_keys :
  forall rt rooms sid ev,
    keys (fst (step rt rooms sid ev)) = keys rooms
    \/ (exists raw name,
           ev = RoomCreate raw name
           /\ safeRoomId rt raw <> []
           /\ lookup (safeRoomId rt raw) rooms = None
           /\ keys (fst (step rt rooms sid ev))
              = keys rooms ++ [safeRoomId rt raw])
    \/ (ev = Disconnect
        /\ exists pre k post,
            keys rooms = pre ++ k :: post
            /\ keys (fst (step rt rooms sid ev)) = pre ++ post).
Proof.
  intros rt rooms sid ev. destruct ev; simpl.
  - unfold on_room_create, ensureRoom.
    destruct (is_empty (safeRoomId rt roomId)) eqn:E; simpl; [auto|].
    destruct (lookup (safeRoomId rt roomId) rooms) as [r|] eqn:L.
    + destruct (live_master r); simpl; [auto|].
      left. eapply keys_store_present. exact L.
    + simpl. rewrite store_store. right. left. exists roomId, name.
      split; [reflexivity|]. split.
      * intros Z. rewrite Z in E. discriminate.
      * split; [exact L | apply keys_store_absent; exact L].
  - unfold on_room_join.
    destruct (is_empty (safeRoomId rt roomId)); simpl; [auto|].
    destruct (lookup (safeRoomId rt roomId) rooms) as [r|] eqn:L; [|auto].
    destruct (negb (truthy (master_value r))); simpl; [auto|].
    left. eapply keys_store_present. exact L.
  - unfold on_request_index.
    destruct (lookup (safeRoomId rt roomId) rooms) as [r|]; [|auto].
    destruct (negb (is_master r sid)); auto.
  - unfold on_sheet_save.
    destruct (lookup (safeRoomId rt roomId) rooms) as [r|] eqn:L; [|auto].
    destruct (negb (has sid (users r))); simpl; [auto|].
    left. eapply keys_store_present. exact L.
  - unfold on_master_request_sheet.
    destruct (lookup (safeRoomId rt roomId) rooms) as [r|]; [|auto].
    destruct (negb (is_master r sid)); [auto|].
    destruct (negb (truthy _)); auto.
  - unfold on_master_update_sheet.
    destruct (lookup (safeRoomId rt roomId) rooms) as [r|] eqn:L; [|auto].
    destruct (negb (is_master r sid)); simpl; [auto|].
    left. eapply keys_store_present. exact L.
  - unfold on_npc_create.
    destruct (lookup (safeRoomId rt roomId) rooms) as [r|] eqn:L; [|auto].
    destruct (negb (is_master r sid)); simpl; [auto|].
    left. eapply keys_store_present. exact L.
  - unfold on_npc_request.
    destruct (lookup (safeRoomId rt roomId) rooms) as [r|]; [|auto].
    destruct (negb (is_master r sid)); [auto|].
    destruct (negb (truthy _)); auto.
  - unfold on_npc_update.
    destruct (lookup (safeRoomId rt roomId) rooms) as [r|] eqn:L; [|auto].
    destruct (negb (is_master r sid)); simpl; [auto|].
    destruct (negb (truthy _)); simpl; [auto|].
    left. eapply keys_store_present. exact L.
  - unfold on_npc_delete.
    destruct (lookup (safeRoomId rt roomId) rooms) as [r|] eqn:L; [|auto].
    destruct (negb (is_master r sid)); simpl; [auto|].
    left. eapply keys_store_present. exact L.
  - unfold on_roll_send.
    destruct (lookup (safeRoomId rt roomId) rooms) as [r|] eqn:L; [|auto].
    destruct (lookup sid (users r)) as [u|]; simpl; [|auto].
    left. eapply keys_store_present. exact L.
  - destruct (on_disconnect_keys rt rooms sid) as [E|E]; auto.
Qed.

Lemma NoDup_snoc :
  forall (A : Type) (l : list A) x, NoDup l -> ~ In x l -> NoDup (l ++ [x]).
Proof.
  induction l as [|y l IH]; intros x Hl Hx; simpl.
  - constructor; [intros [] | constructor].
  - inversion Hl; subst. constructor.
    + intros H. apply in_app_or in H. destruct H as [H|[H|[]]].
      * contradiction.
      * subst. apply Hx. left. reflexivity.
    + apply IH; [assumption|]. intros H. apply Hx. right. exact H.
Qed.

Lemma safeRoomId_valid :
  forall rt raw, safeRoomId rt raw <> [] -> valid_room_id (safeRoomId rt raw).
Proof.
  intros rt raw H. split; [exact H|]. split.
  - apply safeRoomId_length.
  - apply safeRoomId_chars.
Qed.

(** X5.  The registry the server holds never has two rooms under one id,
    and every id in it is one [safeRoomId] lets through: not empty, at
    most 32 characters, all of them letters, digits, [_] or [-]. *)
Theorem registry_ids_wellformed :
  forall rt rooms,
    reachable rt rooms ->
    NoDup (keys rooms) /\ Forall valid_room_id (keys rooms).
Proof.
  intros rt rooms H. induction H as [|rooms sid ev H [IH1 IH2]].
  - split; constructor.
  - destruct (step_keys rt rooms sid ev)
      as [E|[(raw & name & _ & Hne & L & E)|(_ & pre & k & post & E1 & E2)]].
    + rewrite E. auto.
    + rewrite E. split.
      * apply NoDup_snoc; [exact IH1 | apply lookup_None_keys; exact L].
      * apply Forall_app. split; [exact IH2|].
        constructor; [apply safeRoomId_valid; exact Hne | constructor].
    + rewrite E2. rewrite E1 in IH1, IH2. split.
      * eapply NoDup_remove_1. exact IH1.
      * apply Forall_app in IH2. destruct IH2 as [F1 F2].
        inversion F2; subst. apply Forall_app. auto.
Qed.

Lemma registry_ids_wellformed_witness :
  NoDup (keys sample_registry) /\ Forall valid_room_id (keys sample_registry).
Proof.
  apply (@registry_ids_wellformed demo_runtime sample_registry).
  exact sample_registry_reachable.
Defined.

(** X6.  Only [room:create] adds a room, and it adds at most the room it
    names, last in the registry; only [disconnect] removes one, and at
    most one; every other event leaves the ids of the registry, and their
    order, as they were. *)
Theorem rooms_added_and_removed :
  forall rt rooms sid ev,
    let rooms' := fst (step rt rooms sid ev) in
    match ev with
    | RoomCreate raw _ =>
        keys rooms' = keys rooms
        \/ (lookup (safeRoomId rt raw) rooms = None
            /\ keys rooms' = keys rooms ++ [safeRoomId rt raw])
    | Disconnect =>
        keys rooms' = keys rooms
        \/ exists pre k post,
            keys rooms = pre ++ k :: post /\ keys rooms' = pre ++ post
    | _ => keys rooms' = keys rooms
    end.
Proof.
  intros rt rooms sid ev rooms'. subst rooms'.
  destruct (step_keys rt rooms sid ev)
    as [E|[(raw & name & Hev & Hne & L & E)|(Hev & pre & k & post & E1 & E2)]].
  - destruct ev; auto.
  - subst ev. right. auto.
  - subst ev. right. exists pre, k, post. auto.
Qed.

(* ------------------------------------------------------------------ *)
(** ** What an event leaves alone *)

(** X7.  An event that names a room touches no other: whatever the
    handler does, the room stored under any other id is after the event
    what it was before. *)
Theorem other_rooms_untouched :
  forall rt rooms sid ev id id',
    event_room rt ev = Some id ->
    id' <> id ->
    lookup id' (fst (step rt rooms sid ev)) = lookup id' rooms.
Proof.
  intros rt rooms sid ev id id' Hev Hne.
  destruct ev; simpl in Hev; inversion Hev; subst id; clear Hev; simpl.
  - unfold on_room_create, ensureRoom.
    destruct (is_empty (safeRoomId rt roomId)); simpl; [reflexivity|].
    destruct (lookup (safeRoomId rt roomId) rooms) as [r|].
    + destruct (live_master r); simpl; [reflexivity|].
      apply lookup_store_other. exact Hne.
    + simpl. rewrite store_store. apply lookup_store_other. exact Hne.
  - unfold on_room_join.
    destruct (is_empty (safeRoomId rt roomId)); simpl; [reflexivity|].
    destruct (lookup (safeRoomId rt roomId) rooms) as [r|]; [|reflexivity].
    destruct (negb (truthy (master_value r))); simpl; [reflexivity|].
    apply lookup_store_other. exact Hne.
  - unfold on_request_index.
    destruct (lookup (safeRoomId rt roomId) rooms) as [r|]; [|reflexivity].
    destruct (negb (is_master r sid)); reflexivity.
  - unfold on_sheet_save.
    destruct (lookup (safeRoomId rt roomId) rooms) as [r|]; [|reflexivity].
    destruct (negb (has sid (users r))); simpl; [reflexivity|].
    apply lookup_store_other. exact Hne.
  - unfold on_master_request_sheet.
    destruct (lookup (safeRoomId rt roomId) rooms) as [r|]; [|reflexivity].
    destruct (negb (is_master r sid)); [reflexivity|].
    destruct (negb (truthy _)); reflexivity.
  - unfold on_master_update_sheet.
    destruct (lookup (safeRoomId rt roomId) rooms) as [r|]; [|reflexivity].
    destruct (negb (is_master r sid)); simpl; [reflexivity|].
    apply lookup_store_other. exact Hne.
  - unfold on_npc_create.
    destruct (lookup (safeRoomId rt roomId) rooms) as [r|]; [|reflexivity].
    destruct (negb (is_master r sid)); simpl; [reflexivity|].
    apply lookup_store_other. exact Hne.
  - unfold on_npc_request.
    destruct (lookup (safeRoomId rt roomId) rooms) as [r|]; [|reflexivity].
    destruct (negb (is_master r sid)); [reflexivity|].
    destruct (negb (truthy _)); reflexivity.
  - unfold on_npc_update.
    destruct (lookup (safeRoomId rt roomId) rooms) as [r|]; [|reflexivity].
    destruct (negb (is_master r sid)); simpl; [reflexivity|].
    destruct (negb (truthy _)); simpl; [reflexivity|].
    apply lookup_store_other. exact Hne.
  - unfold on_npc_delete.
    destruct (lookup (safeRoomId rt roomId) rooms) as [r|]; [|reflexivity].
    destruct (negb (is_master r sid)); simpl; [reflexivity|].
    apply lookup_store_other. exact Hne.
  - unfold on_roll_send.
    destruct (lookup (safeRoomId rt roomId) rooms) as [r|]; [|reflexivity].
    destruct (lookup sid (users r)); simpl; [|reflexivity].
    apply lookup_store_other. exact Hne.
Qed.

Lemma other_rooms_untouched_witness :
  lookup (lit "outra")
    (fst (step demo_runtime sample_registry (lit "p1")
            (RollSend (VStr (lit "sala")) VNull 1800%Z)))
  = lookup (lit "outra") sample_registry.
Proof.
  apply (@other_rooms_untouched demo_runtime sample_registry (lit "p1")
           (RollSend (VStr (lit "sala")) VNull 1800%Z)
           (lit "sala") (lit "outra")).
  - reflexivity.
  - discriminate.
Defined.

(** X8.  [room:requestIndex], [master:requestSheet] and [npc:request] only
    read: whoever sends them and whatever they name, the registry is not
    changed, and whatever is emitted is addressed to the caller, on its
    socket or, for the index, through [io.to] of its own id. *)
Theorem requests_only_read :
  forall rt rooms sid ev,
    read_only ev = true ->
    fst (step rt rooms sid ev) = rooms
    /\ forall e, In e (snd (step rt rooms sid ev)) ->
                 (exists m, e = SocketEmit sid m)
                 \/ (exists items, e = IoToEmit (VStr sid) (SheetsIndex items)).
Proof.
  intros rt rooms sid ev H. destruct ev; try discriminate; simpl.
  - unfold on_request_index.
    destruct (lookup (safeRoomId rt roomId) rooms) as [r|];
      [|split; [reflexivity | intros e []]].
    destruct (negb (is_master r sid)) eqn:M;
      [split; [reflexivity | intros e []]|].
    split; [reflexivity|]. intros e [<-|[]]. right.
    apply negb_false_true, is_master_true in M.
    unfold emitIndex, master_value. rewrite M. eauto.
  - unfold on_master_request_sheet.
    destruct (lookup (safeRoomId rt roomId) rooms) as [r|];
      [|split; [reflexivity | intros e []]].
    destruct (negb (is_master r sid));
      [split; [reflexivity | intros e [<-|[]]; eauto]|].
    destruct (negb (truthy _));
      (split; [reflexivity | intros e [<-|[]]; eauto]).
  - unfold on_npc_request.
    destruct (lookup (safeRoomId rt roomId) rooms) as [r|];
      [|split; [reflexivity | intros e []]].
    destruct (negb (is_master r sid));
      [split; [reflexivity | intros e []]|].
    destruct (negb (truthy _));
      (split; [reflexivity | intros e [<-|[]]; eauto]).
Qed.

Lemma requests_only_read_witness :
  fst (step demo_runtime sample_registry (lit "m1")
         (MasterRequestSheet (VStr (lit "sala")) (VStr (lit "p1"))))
  = sample_registry.
Proof.
  apply (@requests_only_read demo_runtime sample_registry (lit "m1")
           (MasterRequestSheet (VStr (lit "sala")) (VStr (lit "p1")))).
  reflexivity.
Defined.

(** X9.  A connection that is not a user of the room it names is not
    heard: its [sheet:save] stores nothing and its [roll:send] appends and
    broadcasts nothing, and neither gets an answer. *)
Theorem strangers_not_heard :
  forall rt rooms sid raw,
    (forall r, lookup (safeRoomId rt raw) rooms = Some r ->
               lookup sid (users r) = None) ->
    (forall sheet, step rt rooms sid (SheetSave raw sheet) = (rooms, []))
    /\ (forall payload now,
           step rt rooms sid (RollSend raw payload now) = (rooms, [])).
Proof.
  intros rt rooms sid raw H. simpl. unfold on_sheet_save, on_roll_send, has.
  destruct (lookup (safeRoomId rt raw) rooms) as [r|];
    [|split; reflexivity].
  rewrite (H r eq_refl). split; reflexivity.
Qed.

Lemma strangers_not_heard_witness :
  step demo_runtime sample_registry (lit "x9")
    (RollSend (VStr (lit "sala")) (VStr (lit "1d6")) 1900%Z)
  = (sample_registry, []).
Proof.
  apply (@strangers_not_heard demo_runtime sample_registry (lit "x9")
           (VStr (lit "sala"))).
  intros r H. inversion H. reflexivity.
Defined.

(* ------------------------------------------------------------------ *)
(** ** Room ids, once sanitized *)

(** X10.  A room id that [safeRoomId] has produced goes through
    [safeRoomId] unchanged: the id a client is told in [room:joined] names
    the same room in every later event. *)
Theorem safeRoomId_idempotent :
  forall rt raw, safeRoomId rt (VStr (safeRoomId rt raw)) = safeRoomId rt raw.
Proof.
  intros rt raw. rewrite safeRoomId_string.
  pose proof (safeRoomId_length rt raw) as Hl.
  pose proof (safeRoomId_chars rt raw) as Hc.
  set (s := safeRoomId rt raw) in *.
  rewrite trim_clean.
  - unfold slice0, strip_non_id. rewrite firstn_all2 by exact Hl.
    apply filter_all. exact Hc.
  - eapply Forall_impl; [|exact Hc]. apply id_char_not_space.
Qed.

(* ------------------------------------------------------------------ *)
(** ** [ensureRoom] *)

(** X11.  [ensureRoom] returns the room the registry then holds under the
    id, keeps a room that was there as it was (a new one is the empty
    room, with no master), leaves every other id alone, and done twice is
    done once. *)
Theorem ensureRoom_spec :
  forall rooms id,
    lookup id (fst (ensureRoom rooms id)) = Some (snd (ensureRoom rooms id))
    /\ (forall r, lookup id rooms = Some r ->
                  ensureRoom rooms id = (rooms, r))
    /\ (lookup id rooms = None ->
        snd (ensureRoom rooms id) = emptyRoom
        /\ keys (fst (ensureRoom rooms id)) = keys rooms ++ [id])
    /\ (forall id', id' <> id ->
                    lookup id' (fst (ensureRoom rooms id)) = lookup id' rooms)
    /\ ensureRoom (fst (ensureRoom rooms id)) id = ensureRoom rooms id.
Proof.
  intros rooms id. unfold ensureRoom.
  destruct (lookup id rooms) as [r|] eqn:L; simpl.
  - rewrite L. repeat split; try reflexivity.
    + intros r0 H. inversion H. reflexivity.
    + discriminate.
    + discriminate.
  - rewrite lookup_store_same. repeat split; try reflexivity.
    + discriminate.
    + apply keys_store_absent. exact L.
    + intros id' Hne. apply lookup_store_other. exact Hne.
Qed.

Lemma ensureRoom_spec_witness :
  ensureRoom sample_registry (lit "sala")
  = (sample_registry,
     snd (ensureRoom sample_registry (lit "sala")))
  /\ keys (fst (ensureRoom sample_registry (lit "nova")))
     = [lit "sala"; lit "outra"; lit "nova"].
Proof.
  split.
  - destruct (lookup (lit "sala") sample_registry) as [r|] eqn:L;
      [|discriminate L].
    rewrite (proj1 (proj2 (ensureRoom_spec sample_registry (lit "sala")))
               r L).
    reflexivity.
  - apply (proj2 (proj1 (proj2 (proj2
             (ensureRoom_spec sample_registry (lit "nova")))) eq_refl)).
Defined.

(* ------------------------------------------------------------------ *)
(** ** Sheets: stored, served, kept *)


Lemma prop_store_same :
  forall o k v, prop (store k v o) k = v.
Proof. intros o k v. unfold prop. rewrite lookup_store_same. reflexivity. Qed.

(** X12.  What a user of a room saves with [sheet:save] is what the
    room's master is served by [master:requestSheet] for that user next:
    the very document, in [sheet:load], when it is truthy; a falsy
    document ([null], [0], the empty string) is stored too but answered
    with the not-yet-sent error. *)
Theorem saved_sheet_is_served :
  forall rt rooms p m raw r u sheet,
    lookup (safeRoomId rt raw) rooms = Some r ->
    lookup p (users r) = Some u ->
    masterSocketId r = Some m ->
    let rooms1 := fst (step rt rooms p (SheetSave raw sheet)) in
    step rt rooms1 m (MasterRequestSheet raw (VStr p))
    = (rooms1,
       [SocketEmit m
          (if truthy sheet
           then SheetLoad (VStr p) sheet (VStr p)
           else ErrorMsg "Esse player ainda não enviou a ficha.")]).
Proof.
  intros rt rooms p m raw r u sheet Hr Hu Hm rooms1. subst rooms1.
  simpl. unfold on_sheet_save, has. rewrite Hr, Hu. simpl.
  unfold on_master_request_sheet. rewrite lookup_store_same.
  assert (M : is_master (with_sheets r (store p sheet (sheets r))) m = true)
    by (apply is_master_true; exact Hm).
  rewrite M. simpl. rewrite prop_store_same.
  destruct (truthy sheet); reflexivity.
Qed.

Lemma saved_sheet_is_served_witness :
  let doc := VObj [(lit "hp_now", VNum 7%float)] in
  let rooms1 := fst (step demo_runtime sample_registry (lit "p1")
                       (SheetSave (VStr (lit "sala")) doc)) in
  step demo_runtime rooms1 (lit "m1")
    (MasterRequestSheet (VStr (lit "sala")) (VStr (lit "p1")))
  = (rooms1, [SocketEmit (lit "m1") (SheetLoad (VStr (lit "p1")) doc
                                       (VStr (lit "p1")))]).
Proof.
  refine (@saved_sheet_is_served demo_runtime sample_registry (lit "p1")
            (lit "m1") (VStr (lit "sala")) _ _
            (VObj [(lit "hp_now", VNum 7%float)]) _ _ _);
    reflexivity.
Defined.



(* ------------------------------------------------------------------ *)
(** ** NPCs: made, served, gone *)

Lemma or_else_object_truthy :
  forall v, truthy (or_else v (VObj [])) = true.
Proof. intros v. unfold or_else. destruct (truthy v) eqn:E; auto. Qed.

(** X14.  The NPC the master makes with [npc:create] is the one
    [npc:request] serves under the id ["npc_"] plus the drawn suffix: the
    document sent, or the empty object when the document sent was
    falsy. *)
Theorem created_npc_is_served :
  forall rt rooms m raw r sheet suffix,
    lookup (safeRoomId rt raw) rooms = Some r ->
    masterSocketId r = Some m ->
    let npcId := lit "npc_" ++ suffix in
    let rooms1 := fst (step rt rooms m (NpcCreate raw sheet suffix)) in
    step rt rooms1 m (NpcRequest raw (VStr npcId))
    = (rooms1,
       [SocketEmit m (NpcLoad (VStr npcId) (or_else sheet (VObj [])))]).
Proof.
  intros rt rooms m raw r sheet suffix Hr Hm npcId rooms1.
  subst npcId rooms1. simpl. unfold on_npc_create. rewrite Hr.
  assert (M : is_master r m = true) by (apply is_master_true; exact Hm).
  rewrite M. simpl. unfold on_npc_request. rewrite lookup_store_same.
  assert (M' : forall n, is_master (with_npcs r n) m = true)
    by (intros n; apply is_master_true; exact Hm).
  rewrite M'. simpl. rewrite prop_store_same, or_else_object_truthy.
  reflexivity.
Qed.

Lemma created_npc_is_served_witness :
  let rooms1 := fst (step demo_runtime sample_registry (lit "m1")
                       (NpcCreate (VStr (lit "sala")) VNull (lit "zz11yy22"))) in
  step demo_runtime rooms1 (lit "m1")
    (NpcRequest (VStr (lit "sala")) (VStr (lit "npc_zz11yy22")))
  = (rooms1,
     [SocketEmit (lit "m1") (NpcLoad (VStr (lit "npc_zz11yy22")) (VObj []))]).
Proof.
  refine (@created_npc_is_served demo_runtime sample_registry (lit "m1")
            (VStr (lit "sala")) _ VNull (lit "zz11yy22") _ _);
    reflexivity.
Defined.

(** X15.  In a registry reached without an [npc:update] on a member of
    [Object.prototype], after the master's [npc:delete] of an id that
    itself names no such member, that id names no NPC: [npc:request] and
    [npc:update] for it are answered with the not-found error, and the
    update stores nothing. *)
Theorem deleted_npc_is_gone :
  forall rt rooms m raw r npcId,
    reachable_if rt (plain_npc_update rt) rooms ->
    throws_on_conversion raw = false ->
    plain_key rt npcId ->
    lookup (safeRoomId rt raw) rooms = Some r ->
    masterSocketId r = Some m ->
    let rooms1 := fst (step rt rooms m (NpcDelete raw npcId)) in
    step rt rooms1 m (NpcRequest raw npcId)
    = (rooms1, [SocketEmit m (ErrorMsg "NPC não encontrado.")])
    /\ forall sheet,
        step rt rooms1 m (NpcUpdate raw npcId sheet)
        = (rooms1, [SocketEmit m (ErrorMsg "NPC não encontrado.")]).
Proof.
  intros rt rooms m raw r npcId _ _ _ Hr Hm rooms1. subst rooms1.
  simpl. unfold on_npc_delete. rewrite Hr.
  assert (M : is_master r m = true) by (apply is_master_true; exact Hm).
  rewrite M. simpl. unfold on_npc_request, on_npc_update.
  rewrite lookup_store_same.
  assert (M' : forall n, is_master (with_npcs r n) m = true)
    by (intros n; apply is_master_true; exact Hm).
  rewrite M'. simpl. unfold prop. rewrite lookup_remove_same. simpl.
  split; reflexivity.
Qed.

Lemma deleted_npc_is_gone_witness :
  let rooms1 := fst (step demo_runtime sample_registry (lit "m1")
                       (NpcDelete (VStr (lit "sala"))
                          (VStr (lit "npc_k3x9q2ab")))) in
  step demo_runtime rooms1 (lit "m1")
    (NpcRequest (VStr (lit "sala")) (VStr (lit "npc_k3x9q2ab")))
  = (rooms1, [SocketEmit (lit "m1") (ErrorMsg "NPC não encontrado.")]).
Proof.
  refine (proj1 (@deleted_npc_is_gone demo_runtime sample_registry (lit "m1")
                   (VStr (lit "sala")) _ (VStr (lit "npc_k3x9q2ab"))
                   sample_registry_plain _ _ _ _)).
  - reflexivity.
  - split; reflexivity.
  - reflexivity.
  - reflexivity.
Defined.

(* ------------------------------------------------------------------ *)
(** ** Rolls and the history a joiner gets *)




(* ------------------------------------------------------------------ *)
(** ** Taking over a room, and leaving none *)



(** X18.  The [disconnect] of a connection that is a user of no room
    changes nothing and emits nothing. *)
Theorem disconnect_of_stranger :
  forall rt rooms sid,
    (forall id r, In (id, r) rooms -> lookup sid (users r) = None) ->
    step rt rooms sid Disconnect = (rooms, []).
Proof.
  intros rt rooms sid H. simpl.
  rewrite <- (app_nil_r rooms) at 1.
  rewrite on_disconnect_skip by exact H.
  simpl. rewrite app_nil_r. reflexivity.
Qed.

Lemma disconnect_of_stranger_witness :
  step demo_runtime sample_registry (lit "x9") Disconnect
  = (sample_registry, []).
Proof.
  apply disconnect_of_stranger. intros id r Hin. simpl in Hin.
  destruct Hin as [Hin|[Hin|[]]]; inversion Hin; reflexivity.
Defined.

(* ------------------------------------------------------------------ *)
(** ** Who is sent what *)

Lemma emitIndex_goes_to_master :
  forall rt rooms' id r m,
    In (id, r) rooms' -> masterSocketId r = Some m ->
    index_goes_to_master rt rooms' (emitIndex rt r).
Proof.
  intros rt rooms' id r m Hin Hm. unfold emitIndex, master_value.
  rewrite Hm. simpl. exists id, r, m. auto.
Qed.

Lemma index_goes_to_master_mono :
  forall rt (a b : registry) e,
    (forall x, In x a -> In x b) ->
    index_goes_to_master rt a e -> index_goes_to_master rt b e.
Proof.
  intros rt a b e Hab. destruct e as [s m|t m|s g]; simpl; auto.
  destruct m; auto.
  intros (id & r & m & Hin & H). exists id, r, m. split; [auto | exact H].
Qed.

Lemma truthy_master_value :
  forall r, truthy (master_value r) = true ->
            exists m, masterSocketId r = Some m /\ m <> [].
Proof.
  intros r. unfold master_value. destruct (masterSocketId r) as [m|]; simpl;
    [|discriminate].
  destruct m; [discriminate|]. intros _. eexists. split; [reflexivity|].
  discriminate.
Qed.

Lemma reachable_master_is_user :
  forall rt rooms id r,
    reachable rt rooms -> In (id, r) rooms -> master_is_user r.
Proof.
  intros rt rooms id r H Hin. apply reachable_reachable_if in H.
  refine (@reachable_if_invariant rt (fun _ _ _ => True) master_is_user
            _ _ rooms H id r Hin).
  - intros m Hm. discriminate.
  - intros rooms0 sid ev id0 r0 r' _. apply room_update_master_is_user.
Qed.

Lemma on_disconnect_index :
  forall rt rooms sid,
    (forall id r, In (id, r) rooms -> master_is_user r) ->
    forall e, In e (snd (on_disconnect rt rooms sid)) ->
              index_goes_to_master rt (fst (on_disconnect rt rooms sid)) e.
Proof.
  intros rt. induction rooms as [|[id0 r0] rooms IH]; intros sid Hinv e;
    [intros []|].
  rewrite on_disconnect_cons.
  destruct (has sid (users r0)) eqn:Hu.
  - unfold leave_room.
    set (r2 := if is_master r0 sid
               then with_master (with_users r0 (remove sid (users r0))) None
               else with_users r0 (remove sid (users r0))).
    simpl. intros He. apply in_app_or in He. destruct He as [He|He].
    + destruct (is_master r0 sid); [|destruct He].
      destruct He as [<-|[]]. exact I.
    + destruct (truthy (master_value r2)) eqn:T; [|destruct He].
      destruct He as [<-|[]].
      apply truthy_master_value in T. destruct T as (m & Hm & _).
      assert (K : is_master r0 sid = false
                  /\ masterSocketId r0 = Some m).
      { subst r2. destruct (is_master r0 sid); simpl in Hm;
          [discriminate | auto]. }
      destruct K as [K1 K2].
      assert (Hne : m <> sid).
      { intros ->. apply is_master_true in K2. congruence. }
      destruct (Hinv id0 r0 (or_introl eq_refl) m K2) as [um Hum].
      assert (N : users r2 <> []).
      { subst r2. rewrite K1. simpl. eapply lookup_not_nil.
        rewrite lookup_remove_other by exact Hne. exact Hum. }
      destruct (users r2) as [|x l] eqn:Eu; [contradiction|].
      apply (@emitIndex_goes_to_master rt ((id0, r2) :: rooms) id0 r2 m);
        [left; reflexivity | exact Hm].
  - specialize (IH sid (fun id r Hin => Hinv id r (or_intror Hin)) e).
    destruct (on_disconnect rt rooms sid) as [rest' out]. simpl in *.
    intros He. eapply index_goes_to_master_mono; [|exact (IH He)].
    intros x Hx. right. exact Hx.
Qed.

(** X19.  The index of a room is for the eyes of its master: whatever
    event the server handles, each [room:sheetsIndex] it emits is
    addressed, through [io.to], to the master of a room of the registry,
    and lists that room; it is never put on the caller's socket as such
    and never addressed to [null]. *)
Theorem index_only_to_master :
  forall rt rooms sid ev e,
    reachable rt rooms ->
    In e (snd (step rt rooms sid ev)) ->
    index_goes_to_master rt (fst (step rt rooms sid ev)) e.
Proof.
  intros rt rooms sid ev e Hreach.
  assert (Hinv : forall id r, In (id, r) rooms -> master_is_user r)
    by (intros id r Hin;
        exact (@reachable_master_is_user rt rooms id r Hreach Hin)).
  destruct ev; simpl.
  - unfold on_room_create, ensureRoom.
    destruct (is_empty (safeRoomId rt roomId)); simpl;
      [intros [<-|[]]; exact I|].
    destruct (lookup (safeRoomId rt roomId) rooms) as [r|].
    + destruct (live_master r); simpl; [intros [<-|[]]; exact I|].
      intros [<-|[<-|[<-|[<-|[]]]]]; try exact I.
      eapply emitIndex_goes_to_master; [apply In_store_same | reflexivity].
    + simpl. intros [<-|[<-|[<-|[<-|[]]]]]; try exact I.
      eapply emitIndex_goes_to_master; [apply In_store_same | reflexivity].
  - unfold on_room_join.
    destruct (is_empty (safeRoomId rt roomId)); simpl;
      [intros [<-|[]]; exact I|].
    destruct (lookup (safeRoomId rt roomId) rooms) as [r|];
      [|intros [<-|[]]; exact I].
    destruct (negb (truthy (master_value r))) eqn:T; simpl;
      [intros [<-|[]]; exact I|].
    apply negb_false_true, truthy_master_value in T.
    destruct T as (m & Hm & _).
    intros [<-|[<-|[<-|He]]]; try exact I.
    apply in_app_or in He. destruct He as [He|[<-|[]]].
    + destruct (truthy _); [|destruct He]. destruct He as [<-|[]]. exact I.
    + eapply emitIndex_goes_to_master; [apply In_store_same | exact Hm].
  - unfold on_request_index.
    destruct (lookup (safeRoomId rt roomId) rooms) as [r|] eqn:L;
      [|intros []].
    destruct (negb (is_master r sid)) eqn:M; simpl; [intros []|].
    intros [<-|[]]. apply negb_false_true, is_master_true in M.
    eapply emitIndex_goes_to_master; [apply lookup_In; exact L | exact M].
  - unfold on_sheet_save.
    destruct (lookup (safeRoomId rt roomId) rooms) as [r|];
      [|intros []].
    destruct (negb (has sid (users r))); simpl; [intros []|].
    destruct (truthy (master_value _)) eqn:T; [|intros []].
    apply truthy_master_value in T. destruct T as (m & Hm & _).
    intros [<-|[<-|[<-|[]]]]; try exact I.
    eapply emitIndex_goes_to_master; [apply In_store_same | exact Hm].
  - unfold on_master_request_sheet.
    destruct (lookup (safeRoomId rt roomId) rooms) as [r|];
      [|intros []].
    destruct (negb (is_master r sid)); [intros [<-|[]]; exact I|].
    destruct (negb (truthy _)); intros [<-|[]]; exact I.
  - unfold on_master_update_sheet.
    destruct (lookup (safeRoomId rt roomId) rooms) as [r|];
      [|intros []].
    destruct (negb (is_master r sid)) eqn:M; simpl;
      [intros [<-|[]]; exact I|].
    apply negb_false_true, is_master_true in M.
    intros [<-|[<-|[<-|[]]]]; try exact I.
    eapply emitIndex_goes_to_master; [apply In_store_same | exact M].
  - unfold on_npc_create.
    destruct (lookup (safeRoomId rt roomId) rooms) as [r|];
      [|intros []].
    destruct (negb (is_master r sid)) eqn:M; simpl;
      [intros [<-|[]]; exact I|].
    apply negb_false_true, is_master_true in M.
    intros [<-|[<-|[]]]; try exact I.
    eapply emitIndex_goes_to_master; [apply In_store_same | exact M].
  - unfold on_npc_request.
    destruct (lookup (safeRoomId rt roomId) rooms) as [r|];
      [|intros []].
    destruct (negb (is_master r sid)); [intros []|].
    destruct (negb (truthy _)); intros [<-|[]]; exact I.
  - unfold on_npc_update.
    destruct (lookup (safeRoomId rt roomId) rooms) as [r|];
      [|intros []].
    destruct (negb (is_master r sid)) eqn:M; simpl;
      [intros [<-|[]]; exact I|].
    destruct (negb (truthy _)); simpl; [intros [<-|[]]; exact I|].
    apply negb_false_true, is_master_true in M.
    intros [<-|[<-|[]]]; try exact I.
    eapply emitIndex_goes_to_master; [apply In_store_same | exact M].
  - unfold on_npc_delete.
    destruct (lookup (safeRoomId rt roomId) rooms) as [r|];
      [|intros []].
    destruct (negb (is_master r sid)) eqn:M; simpl;
      [intros [<-|[]]; exact I|].
    apply negb_false_true, is_master_true in M.
    intros [<-|[]].
    eapply emitIndex_goes_to_master; [apply In_store_same | exact M].
  - unfold on_roll_send.
    destruct (lookup (safeRoomId rt roomId) rooms) as [r|];
      [|intros []].
    destruct (lookup sid (users r)); simpl; [|intros []].
    intros [<-|[]]. exact I.
  - apply on_disconnect_index. exact Hinv.
Qed.

Lemma index_only_to_master_witness :
  Forall (index_goes_to_master demo_runtime
            (fst (step demo_runtime sample_registry (lit "p1")
                    (SheetSave (VStr (lit "sala")) (VObj [])))))
    (snd (step demo_runtime sample_registry (lit "p1")
            (SheetSave (VStr (lit "sala")) (VObj [])))).
Proof.
  apply Forall_forall. intros e He.
  apply (@index_only_to_master demo_runtime sample_registry (lit "p1")
           (SheetSave (VStr (lit "sala")) (VObj [])) e).
  - exact sample_registry_reachable.
  - exact He.
Defined.

Lemma on_disconnect_errors :
  forall rt rooms sid e,
    In e (snd (on_disconnect rt rooms sid)) ->
    error_goes_to_caller rooms sid Disconnect e.
Proof.
  intros rt. induction rooms as [|[id0 r0] rooms IH]; intros sid e;
    [intros []|].
  rewrite on_disconnect_cons.
  destruct (has sid (users r0)).
  - unfold leave_room. simpl. intros He. apply in_app_or in He.
    destruct He as [He|He].
    + destruct (is_master r0 sid) eqn:M; [|destruct He].
      destruct He as [<-|[]]. simpl.
      split; [reflexivity|]. split; [reflexivity|].
      exists id0, r0. apply is_master_true in M. auto.
    + destruct (truthy _); [|destruct He]. destruct He as [<-|[]].
      exact I.
  - specialize (IH sid e).
    destruct (on_disconnect rt rooms sid) as [rest' out]. simpl in *.
    intros He. specialize (IH He).
    destruct e as [s m|t m|s g]; simpl in *; auto.
    destruct m; auto.
    destruct IH as (E1 & E2 & id & r & Hin & H).
    split; [exact E1|]. split; [exact E2|]. exists id, r. auto.
Qed.

Ltac each_effect :=
  let He := fresh "He" in
  intros He; simpl in He;
  repeat (destruct He as [<-|He]; [unfold emitIndex; simpl; auto|]);
  try destruct He.

(** X20.  Errors are not broadcast: every [error:msg] the server emits
    goes on the socket of the connection whose event it answers, with one
    exception, the notice that the master is gone, which a master's
    [disconnect] sends through [io.to] to the group of the room it was
    master of. *)
Theorem errors_go_to_caller :
  forall rt rooms sid ev e,
    In e (snd (step rt rooms sid ev)) ->
    error_goes_to_caller rooms sid ev e.
Proof.
  intros rt rooms sid ev e.
  destruct ev; simpl; try (apply on_disconnect_errors).
  - unfold on_room_create, ensureRoom.
    destruct (is_empty (safeRoomId rt roomId)); simpl;
      [each_effect|].
    destruct (lookup (safeRoomId rt roomId) rooms) as [r|];
      [destruct (live_master r)|]; simpl; each_effect.
  - unfold on_room_join.
    destruct (is_empty (safeRoomId rt roomId)); simpl;
      [each_effect|].
    destruct (lookup (safeRoomId rt roomId) rooms) as [r|];
      [|each_effect].
    destruct (negb (truthy (master_value r))); simpl;
      [each_effect|].
    destruct (truthy _); simpl; each_effect.
  - unfold on_request_index.
    destruct (lookup (safeRoomId rt roomId) rooms) as [r|];
      [|intros []].
    destruct (negb (is_master r sid)); simpl; each_effect.
  - unfold on_sheet_save.
    destruct (lookup (safeRoomId rt roomId) rooms) as [r|];
      [|intros []].
    destruct (negb (has sid (users r))); simpl; [intros []|].
    destruct (truthy _); each_effect.
  - unfold on_master_request_sheet.
    destruct (lookup (safeRoomId rt roomId) rooms) as [r|];
      [|intros []].
    destruct (negb (is_master r sid)); [each_effect|].
    destruct (negb (truthy _)); each_effect.
  - unfold on_master_update_sheet.
    destruct (lookup (safeRoomId rt roomId) rooms) as [r|];
      [|intros []].
    destruct (negb (is_master r sid)); simpl; each_effect.
  - unfold on_npc_create.
    destruct (lookup (safeRoomId rt roomId) rooms) as [r|];
      [|intros []].
    destruct (negb (is_master r sid)); simpl; each_effect.
  - unfold on_npc_request.
    destruct (lookup (safeRoomId rt roomId) rooms) as [r|];
      [|intros []].
    destruct (negb (is_master r sid)); [intros []|].
    destruct (negb (truthy _)); each_effect.
  - unfold on_npc_update.
    destruct (lookup (safeRoomId rt roomId) rooms) as [r|];
      [|intros []].
    destruct (negb (is_master r sid)); simpl;
      [each_effect|].
    destruct (negb (truthy _)); simpl; each_effect.
  - unfold on_npc_delete.
    destruct (lookup (safeRoomId rt roomId) rooms) as [r|];
      [|intros []].
    destruct (negb (is_master r sid)); simpl; each_effect.
  - unfold on_roll_send.
    destruct (lookup (safeRoomId rt roomId) rooms) as [r|];
      [|intros []].
    destruct (lookup sid (users r)); simpl; [|intros []].
    each_effect.
Qed.

Lemma errors_go_to_caller_witness :
  Forall (error_goes_to_caller sample_registry (lit "p1")
            (NpcDelete (VStr (lit "sala")) (VStr (lit "npc_k3x9q2ab"))))
    (snd (step demo_runtime sample_registry (lit "p1")
            (NpcDelete (VStr (lit "sala")) (VStr (lit "npc_k3x9q2ab"))))).
Proof.
  apply Forall_forall. intros e He.
  apply (@errors_go_to_caller demo_runtime sample_registry (lit "p1")
           (NpcDelete (VStr (lit "sala")) (VStr (lit "npc_k3x9q2ab"))) e).
  exact He.
Defined.

(* ------------------------------------------------------------------ *)
(** ** The shape of summaries and of the index *)

Lemma number_or_null_shape :
  forall rt x,
    number_or_null rt x = VNull \/ exists n, number_or_null rt x = VNum n.
Proof.
  intros rt x. unfold number_or_null.
  destruct x as [| |b|n|s|l|fs]; eauto. destruct s; eauto.
Qed.

(** X21.  A document that is not an object (a string, a number, a
    boolean, an array, [null], or none at all) has none of the fields the
    summary reads, and no conversion of it is attempted: it is summed up
    as hp 0, pd 0 and no name. *)
Theorem summary_of_non_object :
  forall rt sheet,
    (forall fields, sheet <> VObj fields) ->
    extractSummaryFromSheet rt sheet
    = {| s_hp := VNum 0%float; s_pd := VNum 0%float; s_name := VNull |}.
Proof.
  intros rt sheet H. destruct sheet; try reflexivity.
  exfalso. eapply H. reflexivity.
Qed.

Lemma summary_of_non_object_witness :
  extractSummaryFromSheet demo_runtime
    (VArr [VStr (lit "hp_now"); VNum 7%float])
  = {| s_hp := VNum 0%float; s_pd := VNum 0%float; s_name := VNull |}.
Proof.
  apply summary_of_non_object. intros fields. discriminate.
Defined.



Lemma insert_by_index_In :
  forall (A : Type) n (e : jsstring * A) l y,
    In y (insert_by_index n e l) -> y = (n, e) \/ In y l.
Proof.
  intros A n e. induction l as [|[m e'] l IH]; intros y; simpl.
  - intros [H|[]]; auto.
  - destruct (n <=? m)%N; simpl.
    + intros [H|H]; auto.
    + intros [H|H]; auto. destruct (IH y H); auto.
Qed.

Lemma index_entries_In :
  forall (A : Type) (o : entries A) n x,
    In (n, x) (index_entries o) -> In x o.
Proof.
  intros A. induction o as [|e o IH]; intros n x; simpl; [auto|].
  destruct (array_index (fst e)).
  - intros H. apply insert_by_index_In in H. destruct H as [H|H].
    + inversion H. auto.
    + right. eapply IH. exact H.
  - intros H. right. eapply IH. exact H.
Qed.

(** [Object.entries] lists nothing the object does not hold. *)
Lemma Object_entries_In :
  forall (A : Type) (o : entries A) x, In x (Object_entries o) -> In x o.
Proof.
  intros A o x H. unfold Object_entries in H. apply in_app_or in H.
  destruct H as [H|H].
  - apply in_map_iff in H. destruct H as ([n y] & E & H). simpl in E.
    subst y. eapply index_entries_In. exact H.
  - apply filter_In in H. tauto.
Qed.

(** X23.  Every entry of the index [buildIndex] makes has an [hp] and a
    [pd] that are a number or [null].  An entry of type player carries the
    id of a user of the room stored with the role of player (a user with
    the role of master is never listed); an entry of type npc carries the
    id of an NPC of the room and a name that is truthy. *)
Theorem index_entries_shape :
  forall rt r e,
    In e (buildIndex rt r) ->
    (e_hp e = VNull \/ exists n, e_hp e = VNum n)
    /\ (e_pd e = VNull \/ exists n, e_pd e = VNum n)
    /\ match e_type e with
       | type_player =>
           exists u, In (e_id e, u) (users r) /\ u_role u = player
       | type_npc =>
           In (e_id e) (keys (npcs r)) /\ truthy (e_name e) = true
       end.
Proof.
  intros rt r e H. unfold buildIndex in H.
  rewrite fold_push_npc, fold_push_player in H. simpl in H.
  apply in_app_or in H. destruct H as [H|H].
  - apply in_map_iff in H. destruct H as ([sid u] & <- & H).
    apply filter_In in H. destruct H as [H Hp].
    apply Object_entries_In in H.
    assert (Hrole : u_role u = player).
    { unfold is_player in Hp. simpl in Hp. destruct (u_role u);
        [discriminate | reflexivity]. }
    unfold index_of_player.
    destruct (lookup sid (sheets r)) as [sh|];
      [destruct (truthy sh)|]; simpl;
      (split; [|split; [|eauto]]); auto using number_or_null_shape.
  - apply in_map_iff in H. destruct H as ([nid sh] & <- & H).
    apply Object_entries_In in H. unfold index_of_npc. simpl.
    split; [apply number_or_null_shape|].
    split; [apply number_or_null_shape|].
    split.
    + unfold keys. apply in_map_iff. exists (nid, sh). auto.
    + destruct (truthy (or_else _ VNull)) eqn:T; [exact T | reflexivity].
Qed.

Lemma index_entries_shape_witness :
  Forall (fun e => match e_type e with
                   | type_player =>
                       exists u, In (e_id e, u)
                                    (users (nth 0 (map snd sample_registry)
                                              emptyRoom))
                                 /\ u_role u = player
                   | type_npc => truthy (e_name e) = true
                   end)
    (buildIndex demo_runtime (nth 0 (map snd sample_registry) emptyRoom)).
Proof.
  apply Forall_forall. intros e He.
  pose proof (proj2 (proj2 (@index_entries_shape demo_runtime _ e He))) as H.
  destruct (e_type e); [exact H | exact (proj2 H)].
Defined.

(* ------------------------------------------------------------------ *)
(** ** The roll ledger of a room *)

Lemma roll_send_room :
  forall rt rooms sid raw payload now r u,
    lookup (safeRoomId rt raw) rooms = Some r ->
    lookup sid (users r) = Some u ->
    exists r',
      step rt rooms sid (RollSend raw payload now)
      = (store (safeRoomId rt raw) r' rooms,
         [IoToEmit (VStr (safeRoomId rt raw))
            (RollBroadcast
               (roll_entry_of (safeRoomId rt raw) sid u (payload, now)))])
      /\ rolls r'
         = roll_append (rolls r)
             (roll_entry_of (safeRoomId rt raw) sid u (payload, now))
      /\ masterSocketId r' = masterSocketId r /\ users r' = users r
      /\ sheets r' = sheets r /\ npcs r' = npcs r.
Proof.
  intros rt rooms sid raw payload now r u Hr Hu. simpl.
  unfold on_roll_send. rewrite Hr, Hu. eexists.
  split; [reflexivity|]. simpl. repeat split; reflexivity.
Qed.

(** A run of [roll:send]s of one user of a room: the room's rolls are the
    appends folded in order, one broadcast per send in the order sent,
    and nothing else of the room or the registry's ids changes. *)
Lemma run_roll_sends :
  forall rt sid raw u sends rooms r,
    lookup (safeRoomId rt raw) rooms = Some r ->
    lookup sid (users r) = Some u ->
    exists r',
      lookup (safeRoomId rt raw)
        (fst (run rt rooms (roll_sends sid raw sends))) = Some r'
      /\ rolls r'
         = fold_left roll_append
             (map (roll_entry_of (safeRoomId rt raw) sid u) sends) (rolls r)
      /\ masterSocketId r' = masterSocketId r /\ users r' = users r
      /\ sheets r' = sheets r /\ npcs r' = npcs r
      /\ keys (fst (run rt rooms (roll_sends sid raw sends))) = keys rooms
      /\ snd (run rt rooms (roll_sends sid raw sends))
         = map (fun e => IoToEmit (VStr (safeRoomId rt raw)) (RollBroadcast e))
             (map (roll_entry_of (safeRoomId rt raw) sid u) sends).
Proof.
  intros rt sid raw u. induction sends as [|[payload now] sends IH];
    intros rooms r Hr Hu.
  - exists r. simpl. repeat split; auto.
  - destruct (roll_send_room rt rooms sid raw payload now Hr Hu)
      as (r1 & Hstep & R1 & M1 & U1 & S1 & N1).
    assert (L1 : lookup (safeRoomId rt raw)
                   (store (safeRoomId rt raw) r1 rooms) = Some r1)
      by apply lookup_store_same.
    assert (Hu1 : lookup sid (users r1) = Some u) by (rewrite U1; exact Hu).
    destruct (IH _ r1 L1 Hu1) as (r' & L & R & M & U & S & Nn & K & O).
    exists r'. unfold roll_sends in *. simpl map.
    change (run rt rooms
              ((sid, RollSend raw payload now)
               :: map (fun pt => (sid, RollSend raw (fst pt) (snd pt))) sends))
      with (let (rooms1, out1) := step rt rooms sid (RollSend raw payload now) in
            let (rooms2, out2) :=
              run rt rooms1
                (map (fun pt => (sid, RollSend raw (fst pt) (snd pt))) sends) in
            (rooms2, out1 ++ out2)).
    rewrite Hstep.
    destruct (run rt (store (safeRoomId rt raw) r1 rooms)
                (map (fun pt => (sid, RollSend raw (fst pt) (snd pt))) sends))
      as [rooms2 out2].
    simpl in *. rewrite R, R1, M, M1, U, U1, S, S1, Nn, N1, K, O.
    repeat split; auto.
    eapply keys_store_present. exact Hr.
Qed.

(** C2.  No room of any registry the server reaches holds more than 50
    rolls.  An append puts the entry last; it drops the entry at index 0,
    and only that one, when 50 are already held.  [roll:send] from a user
    of a room is one such append to that room's rolls (nothing else of
    the room changes) and one [roll:broadcast] to the room.  So after any
    run of [roll:send]s the room holds the newest 50 of what it held and
    what was sent, oldest first, and the broadcasts went out one per
    send, in the order sent; 55 sends to a room just created leave
    exactly the last 50. *)
Theorem roll_ledger_bounded_fifo :
  forall rt,
    (forall rooms,
        reachable rt rooms ->
        forall id r, In (id, r) rooms -> List.length (rolls r) <= 50)
    /\ (forall l e,
           (List.length l < 50 -> roll_append l e = l ++ [e])
           /\ (50 <= List.length l -> roll_append l e = tl l ++ [e]))
    /\ (forall l es,
           List.length l <= 50 ->
           fold_left roll_append es l
           = skipn (List.length (l ++ es) - 50) (l ++ es))
    /\ (forall es,
           List.length es = 55 ->
           fold_left roll_append es [] = skipn 5 es
           /\ List.length (fold_left roll_append es []) = 50)
    /\ (forall rooms sid raw payload now r u,
           lookup (safeRoomId rt raw) rooms = Some r ->
           lookup sid (users r) = Some u ->
           let entry := {| r_roomId := safeRoomId rt raw; r_socketId := sid;
                           r_name := u_name u; r_role := u_role u;
                           r_payload := payload; r_at := now |} in
           step rt rooms sid (RollSend raw payload now)
           = (store (safeRoomId rt raw)
                (with_rolls r (roll_append (rolls r) entry)) rooms,
              [IoToEmit (VStr (safeRoomId rt raw)) (RollBroadcast entry)])
           /\ exists r',
               lookup (safeRoomId rt raw)
                 (fst (step rt rooms sid (RollSend raw payload now)))
               = Some r'
               /\ rolls r' = roll_append (rolls r) entry
               /\ masterSocketId r' = masterSocketId r
               /\ users r' = users r /\ sheets r' = sheets r
               /\ npcs r' = npcs r)
    /\ (forall rooms sid raw r u sends,
           lookup (safeRoomId rt raw) rooms = Some r ->
           lookup sid (users r) = Some u ->
           List.length (rolls r) <= 50 ->
           let entries :=
             map (roll_entry_of (safeRoomId rt raw) sid u) sends in
           exists r',
             lookup (safeRoomId rt raw)
               (fst (run rt rooms (roll_sends sid raw sends))) = Some r'
             /\ rolls r'
                = skipn (List.length (rolls r ++ entries) - 50)
                    (rolls r ++ entries)
             /\ List.length (rolls r') <= 50
             /\ snd (run rt rooms (roll_sends sid raw sends))
                = map (fun e => IoToEmit (VStr (safeRoomId rt raw))
                                  (RollBroadcast e)) entries)
    /\ (forall rooms m raw name sends,
           safeRoomId rt raw <> [] ->
           lookup (safeRoomId rt raw) rooms = None ->
           let mu := {| u_name := clip_name rt name "Mestre";
                        u_role := master |} in
           let entries :=
             map (roll_entry_of (safeRoomId rt raw) m mu) sends in
           exists r',
             lookup (safeRoomId rt raw)
               (fst (run rt rooms
                       ((m, RoomCreate raw name) :: roll_sends m raw sends)))
             = Some r'
             /\ rolls r' = skipn (List.length entries - 50) entries
             /\ (List.length sends = 55 ->
                 rolls r' = skipn 5 entries
                 /\ List.length (rolls r') = 50)).
Proof.
  intros rt. split; [|split; [|split; [|split; [|split; [|split]]]]].
  - intros rooms H. apply reachable_reachable_if in H.
    revert rooms H.
    apply (@reachable_if_invariant rt (fun _ _ _ => True)
             (fun r => List.length (rolls r) <= 50)).
    + simpl. lia.
    + intros rooms sid ev id r r' _ Hr U.
      destruct (room_update_rolls U) as [E|[e E]]; rewrite E.
      * exact Hr.
      * apply roll_append_length. exact Hr.
  - intros l e. split; [apply roll_append_short | apply roll_append_full].
  - intros l es. apply fold_roll_append.
  - intros es H.
    assert (E : fold_left roll_append es [] = skipn 5 es).
    { rewrite fold_roll_append by (simpl; lia). simpl. rewrite H.
      reflexivity. }
    split; [exact E|]. rewrite E, length_skipn. lia.
  - intros rooms sid raw payload now r u Hr Hu entry. split.
    + simpl. unfold on_roll_send. rewrite Hr, Hu. reflexivity.
    + destruct (roll_send_room rt rooms sid raw payload now Hr Hu)
        as (r' & Hstep & R & M & U & S & Nn).
      exists r'. rewrite Hstep. simpl fst. rewrite lookup_store_same.
      repeat split; assumption.
  - intros rooms sid raw r u sends Hr Hu Hlen entries.
    destruct (run_roll_sends rt sid raw sends rooms Hr Hu)
      as (r' & L & R & _ & _ & _ & _ & _ & O).
    exists r'. split; [exact L|].
    assert (E : rolls r'
                = skipn (List.length (rolls r ++ entries) - 50)
                    (rolls r ++ entries)).
    { rewrite R. apply fold_roll_append. exact Hlen. }
    split; [exact E|]. split; [|exact O].
    rewrite E, length_skipn. lia.
  - intros rooms m raw name sends Hid Hnone mu entries.
    assert (Z : is_empty (safeRoomId rt raw) = false).
    { destruct (is_empty (safeRoomId rt raw)) eqn:Z; [|reflexivity].
      apply is_empty_true in Z. contradiction. }
    set (r0 := with_users (with_master emptyRoom (Some m))
                 (store m mu (users emptyRoom))).
    assert (Hstep : step rt rooms m (RoomCreate raw name)
                    = (store (safeRoomId rt raw) r0 rooms,
                       snd (step rt rooms m (RoomCreate raw name)))).
    { simpl. unfold on_room_create, ensureRoom. rewrite Z, Hnone. simpl.
      rewrite store_store. reflexivity. }
    assert (L0 : lookup (safeRoomId rt raw)
                   (store (safeRoomId rt raw) r0 rooms) = Some r0)
      by apply lookup_store_same.
    assert (U0 : lookup m (users r0) = Some mu).
    { subst r0. simpl. rewrite str_eqb_refl. reflexivity. }
    destruct (run_roll_sends rt m raw sends _ L0 U0)
      as (r' & L & R & _).
    exists r'.
    change (run rt rooms ((m, RoomCreate raw name) :: roll_sends m raw sends))
      with (let (rooms1, out1) := step rt rooms m (RoomCreate raw name) in
            let (rooms2, out2) := run rt rooms1 (roll_sends m raw sends) in
            (rooms2, out1 ++ out2)).
    rewrite Hstep.
    destruct (run rt (store (safeRoomId rt raw) r0 rooms)
                (roll_sends m raw sends)) as [rooms2 out2].
    simpl fst in *. split; [exact L|].
    assert (E : rolls r' = skipn (List.length entries - 50) entries).
    { rewrite R. rewrite fold_roll_append by (simpl; lia). reflexivity. }
    split; [exact E|]. intros H55.
    assert (Hl : List.length entries = 55)
      by (subst entries; rewrite length_map; exact H55).
    rewrite E, Hl. split; [reflexivity|].
    rewrite length_skipn, Hl. reflexivity.
Qed.

Lemma roll_ledger_bounded_fifo_witness :
  let sends := map (fun n => (VStr (lit "1d20"), Z.of_nat n)) (seq 0 55) in
  let gm := {| u_name := lit "Gm"; u_role := master |} in
  option_map rolls
    (lookup (lit "sala")
       (fst (run demo_runtime []
               ((lit "m1", RoomCreate (VStr (lit "sala")) (VStr (lit "Gm")))
                :: roll_sends (lit "m1") (VStr (lit "sala")) sends))))
  = Some (map (fun n => roll_entry_of (lit "sala") (lit "m1") gm
                          (VStr (lit "1d20"), Z.of_nat n)) (seq 5 50))
  /\ fold_left roll_append (map sample_roll (seq 0 55)) []
     = map sample_roll (seq 5 50)
  /\ (forall id r,
         In (id, r)
            (fst (run demo_runtime []
                    [(lit "m1", RoomCreate (VStr (lit "sala")) VNull);
                     (lit "m1", RollSend (VStr (lit "sala")) VNull 7%Z)])) ->
         List.length (rolls r) <= 50).
Proof.
  intros sends gm.
  pose proof (roll_ledger_bounded_fifo demo_runtime)
    as (Hreach & _ & _ & H55 & _ & _ & Hfresh).
  split; [|split].
  - destruct (Hfresh [] (lit "m1") (VStr (lit "sala")) (VStr (lit "Gm"))
                sends ltac:(discriminate) eq_refl)
      as (r' & L & _ & H).
    assert (L' : lookup (lit "sala")
                   (fst (run demo_runtime []
                           ((lit "m1",
                             RoomCreate (VStr (lit "sala")) (VStr (lit "Gm")))
                            :: roll_sends (lit "m1") (VStr (lit "sala"))
                                 sends)))
                 = Some r') by exact L.
    rewrite L'. simpl option_map. f_equal.
    rewrite (proj1 (H eq_refl)). reflexivity.
  - exact (proj1 (H55 (map sample_roll (seq 0 55)) eq_refl)).
  - apply Hreach. apply reachable_run. apply reach_init.
Defined.
